(** * Watcher core: event queue, variable registry and lifecycle

    A shallow embedding of [watcher/core/src/watcher_core.cpp] and of the
    data declarations of [watcher/core/include/watcher_core.hpp].

    The C++ object [WatcherCoreImpl] becomes a record that is threaded
    through every operation.  Results of system calls, clock readings and
    the bytes of host memory are explicit inputs of the operation that
    reads them.  Fixed-width counters ([uint64_t], [size_t]) are integers
    in [Z] whose wrap-around is written out with [wrap64]. *)

From Stdlib Require Import ZArith Lia.
From Stdlib Require HexadecimalString.
From stdpp Require Import base decidable option list list_numbers strings pretty gmap.

Local Open Scope Z_scope.

(** ** Constants of [watcher_core.hpp] *)

Definition PAGE_SIZE : Z := 4096.
Definition HEADER_SIZE : Z := 64.
Definition MAX_CONCURRENT_WORKERS : Z := 3.
Definition EVENT_QUEUE_CAPACITY : Z := 10000.

Definition FLAG_TRACK_THREADS : Z := Z.shiftl 1 0.
Definition FLAG_TRACK_SQL : Z := Z.shiftl 1 1.
Definition FLAG_TRACK_ALL : Z := Z.shiftl 1 2.
Definition FLAG_TRACK_LOCALS : Z := Z.shiftl 1 3.

(** Arithmetic on [uint64_t] and [size_t] (64 bits on the supported
    platform) is arithmetic modulo [2^64]. *)
Definition wrap64 (z : Z) : Z := z mod 2 ^ 64.

Definition is_size_t (z : Z) : Prop := 0 <= z < 2 ^ 64.

(** Conversion to a signed 32-bit type ([pid_t], [int]) and arithmetic on
    a signed 64-bit type (the tick count of a clock): the value modulo
    [2^32] or [2^64] that lies in the signed range. *)
Definition wrap_int32 (z : Z) : Z := (z + 2 ^ 31) mod 2 ^ 32 - 2 ^ 31.

Definition wrap_int64 (z : Z) : Z := (z + 2 ^ 63) mod 2 ^ 64 - 2 ^ 63.

(** [max_size()] of a [std::vector<uint8_t>] (libstdc++, 64 bits): the
    largest [ptrdiff_t].  Constructing a longer vector throws
    [std::length_error]. *)
Definition vector_max_size : Z := 2 ^ 63 - 1.

(** ** Data structures *)

Inductive State : Set :=
| UNINITIALIZED | INITIALIZED | RUNNING | PAUSED | STOPPED | ERROR.

#[global] Instance State_eq_dec : EqDecision State.
Proof. solve_decision. Defined.

Record MutationDepth : Set := mkMutationDepth {
  full_page : bool;
  byte_range : Z
}.

Module FastPathEvent.
Record t : Set := mk {
  event_id : string;
  ts_ns : Z;
  page_base : Z;
  fault_addr : Z;
  tid : Z;
  ip : Z
}.
End FastPathEvent.

Module EnrichedEvent.
Record t : Set := mk {
  event_id : string;
  ts_ns : Z;
  page_base : Z;
  fault_addr : Z;
  tid : Z;
  ip : Z;
  symbol : string;
  file : string;
  line : Z;
  pre_snapshot : list Byte.byte;
  post_snapshot : list Byte.byte;
  deltas : list (Z * (list Byte.byte * list Byte.byte));
  variable_ids : list string;
  sql_context_id : string
}.
End EnrichedEvent.

Module VariableMetadata.
Record t : Set := mk {
  variable_id : string;
  page_base : Z;
  page_size : Z;
  name : string;
  flags : Z;
  mutation_depth : MutationDepth;
  initial_snapshot : list Byte.byte;
  registered_at : Z
}.
End VariableMetadata.

(** [WatcherCore::Metrics]; [mean_latency_ms] is the constant [0.0] in
    [getMetrics] and is left out. *)
Record Metrics : Set := mkMetrics {
  events_received : Z;
  events_processed : Z;
  events_dropped : Z;
  callbacks_failed : Z;
  queue_depth : Z
}.

(** ** The event queue

    [EventQueue] is a linked list behind a sentinel node.  [nodes] holds
    the events of the nodes after the sentinel, oldest first; [size_] is
    the separate atomic counter the class keeps next to the list. *)

Record EventQueue : Set := mkEventQueue {
  nodes : list FastPathEvent.t;
  capacity_ : Z;
  size_ : Z
}.

Definition EventQueue_new (capacity : Z) : EventQueue :=
  {| nodes := []; capacity_ := capacity; size_ := 0 |}.

Definition enqueue (q : EventQueue) (event : FastPathEvent.t)
  : EventQueue * bool :=
  if size_ q >=? capacity_ q then (q, false)
  else ({| nodes := nodes q ++ [event];
           capacity_ := capacity_ q;
           size_ := wrap64 (size_ q + 1) |}, true).

Definition dequeue (q : EventQueue) : EventQueue * option FastPathEvent.t :=
  match nodes q with
  | [] => (q, None)
  | event :: next =>
      ({| nodes := next;
          capacity_ := capacity_ q;
          size_ := wrap64 (size_ q - 1) |}, Some event)
  end.

Definition size (q : EventQueue) : Z := size_ q.

(** ** The core object *)

Record WatcherCoreImpl : Type := mkCore {
  state_ : State;
  error_message_ : string;
  output_dir_ : string;
  event_queue_ : option EventQueue;
  variables_ : gmap string VariableMetadata.t;
  uffd_ : Z;
  handler_thread_ : bool;      (* joinable() of the handler thread *)
  slow_path_thread_ : bool;    (* joinable() of the slow-path thread *)
  running_ : bool;
  events_received_ : Z;
  events_processed_ : Z;
  events_dropped_ : Z;
  counter : Z                  (* the function-local static of registerPage *)
}.

Definition set_state_ (s : State) (c : WatcherCoreImpl) : WatcherCoreImpl :=
  mkCore s (error_message_ c) (output_dir_ c) (event_queue_ c) (variables_ c)
    (uffd_ c) (handler_thread_ c) (slow_path_thread_ c) (running_ c)
    (events_received_ c) (events_processed_ c) (events_dropped_ c) (counter c).

Definition set_error_message_ (m : string) (c : WatcherCoreImpl) : WatcherCoreImpl :=
  mkCore (state_ c) m (output_dir_ c) (event_queue_ c) (variables_ c)
    (uffd_ c) (handler_thread_ c) (slow_path_thread_ c) (running_ c)
    (events_received_ c) (events_processed_ c) (events_dropped_ c) (counter c).

Definition set_output_dir_ (d : string) (c : WatcherCoreImpl) : WatcherCoreImpl :=
  mkCore (state_ c) (error_message_ c) d (event_queue_ c) (variables_ c)
    (uffd_ c) (handler_thread_ c) (slow_path_thread_ c) (running_ c)
    (events_received_ c) (events_processed_ c) (events_dropped_ c) (counter c).

Definition set_event_queue_ (q : option EventQueue) (c : WatcherCoreImpl)
  : WatcherCoreImpl :=
  mkCore (state_ c) (error_message_ c) (output_dir_ c) q (variables_ c)
    (uffd_ c) (handler_thread_ c) (slow_path_thread_ c) (running_ c)
    (events_received_ c) (events_processed_ c) (events_dropped_ c) (counter c).

Definition set_variables_ (v : gmap string VariableMetadata.t)
  (c : WatcherCoreImpl) : WatcherCoreImpl :=
  mkCore (state_ c) (error_message_ c) (output_dir_ c) (event_queue_ c) v
    (uffd_ c) (handler_thread_ c) (slow_path_thread_ c) (running_ c)
    (events_received_ c) (events_processed_ c) (events_dropped_ c) (counter c).

Definition set_uffd_ (fd : Z) (c : WatcherCoreImpl) : WatcherCoreImpl :=
  mkCore (state_ c) (error_message_ c) (output_dir_ c) (event_queue_ c)
    (variables_ c) fd (handler_thread_ c) (slow_path_thread_ c) (running_ c)
    (events_received_ c) (events_processed_ c) (events_dropped_ c) (counter c).

Definition set_threads (h s : bool) (c : WatcherCoreImpl) : WatcherCoreImpl :=
  mkCore (state_ c) (error_message_ c) (output_dir_ c) (event_queue_ c)
    (variables_ c) (uffd_ c) h s (running_ c)
    (events_received_ c) (events_processed_ c) (events_dropped_ c) (counter c).

Definition set_running_ (r : bool) (c : WatcherCoreImpl) : WatcherCoreImpl :=
  mkCore (state_ c) (error_message_ c) (output_dir_ c) (event_queue_ c)
    (variables_ c) (uffd_ c) (handler_thread_ c) (slow_path_thread_ c) r
    (events_received_ c) (events_processed_ c) (events_dropped_ c) (counter c).

Definition set_events_received_ (n : Z) (c : WatcherCoreImpl) : WatcherCoreImpl :=
  mkCore (state_ c) (error_message_ c) (output_dir_ c) (event_queue_ c)
    (variables_ c) (uffd_ c) (handler_thread_ c) (slow_path_thread_ c)
    (running_ c) n (events_processed_ c) (events_dropped_ c) (counter c).

Definition set_events_dropped_ (n : Z) (c : WatcherCoreImpl) : WatcherCoreImpl :=
  mkCore (state_ c) (error_message_ c) (output_dir_ c) (event_queue_ c)
    (variables_ c) (uffd_ c) (handler_thread_ c) (slow_path_thread_ c)
    (running_ c) (events_received_ c) (events_processed_ c) n (counter c).

Definition set_counter (n : Z) (c : WatcherCoreImpl) : WatcherCoreImpl :=
  mkCore (state_ c) (error_message_ c) (output_dir_ c) (event_queue_ c)
    (variables_ c) (uffd_ c) (handler_thread_ c) (slow_path_thread_ c)
    (running_ c) (events_received_ c) (events_processed_ c)
    (events_dropped_ c) n.

(** The constructor [WatcherCoreImpl()]. *)
Definition WatcherCoreImpl_new : WatcherCoreImpl :=
  mkCore UNINITIALIZED "" "" None ∅ (-1) false false false 0 0 0 0.

(** ** Lifecycle operations *)

(** What [initialize] learns from the operating system: the result of the
    [userfaultfd] system call, the result of the [UFFDIO_API] ioctl, and
    the [strerror(errno)] text after each of them. *)
Record InitEnv : Set := mkInitEnv {
  userfaultfd_ret : Z;
  userfaultfd_strerror : string;
  uffdio_api_ret : Z;
  uffdio_api_strerror : string
}.

Definition initialize (c : WatcherCoreImpl) (output_dir : string)
  (max_queue_size : Z) (env : InitEnv) : WatcherCoreImpl * bool :=
  if bool_decide (state_ c ≠ UNINITIALIZED) then
    (set_error_message_ "Core already initialized" c, false)
  else
    let c1 := set_output_dir_ output_dir c in
    let c2 := set_event_queue_ (Some (EventQueue_new max_queue_size)) c1 in
    let c3 := set_uffd_ (userfaultfd_ret env) c2 in
    if uffd_ c3 <? 0 then
      (set_state_ ERROR
         (set_error_message_
            ("Failed to create userfaultfd: " +:+ userfaultfd_strerror env) c3),
       false)
    else if uffdio_api_ret env <? 0 then
      (set_uffd_ (-1)
         (set_state_ ERROR
            (set_error_message_
               ("Failed to configure userfaultfd: " +:+ uffdio_api_strerror env)
               c3)),
       false)
    else (set_state_ INITIALIZED c3, true).

Definition start (c : WatcherCoreImpl) : WatcherCoreImpl * bool :=
  if bool_decide (state_ c ≠ INITIALIZED) then
    (set_error_message_ "Core not initialized" c, false)
  else
    (set_threads true true (set_state_ RUNNING (set_running_ true c)), true).

Definition pause (c : WatcherCoreImpl) : WatcherCoreImpl * bool :=
  if bool_decide (state_ c ≠ RUNNING) then
    (set_error_message_ "Core not running" c, false)
  else (set_state_ PAUSED c, true).

Definition resume (c : WatcherCoreImpl) : WatcherCoreImpl * bool :=
  if bool_decide (state_ c ≠ PAUSED) then
    (set_error_message_ "Core not paused" c, false)
  else (set_state_ RUNNING c, true).

(** [stop] waits (sleeping) while the handler thread is joinable and the
    timeout has not passed, then detaches both threads.  The wait changes
    no field of the object, so only the detaching shows in the result. *)
Definition stop (c : WatcherCoreImpl) (timeout_ms : Z) : WatcherCoreImpl * bool :=
  if bool_decide (state_ c = STOPPED) || bool_decide (state_ c = ERROR)
     || bool_decide (state_ c = UNINITIALIZED) then
    (c, bool_decide (state_ c ≠ ERROR))
  else
    (set_threads false false (set_state_ STOPPED (set_running_ false c)), true).

Definition getState (c : WatcherCoreImpl) : State := state_ c.

Definition getErrorMessage (c : WatcherCoreImpl) : string := error_message_ c.

(** [dequeueEvent] is the placeholder of the source: it returns [nullptr]. *)
Definition dequeueEvent (c : WatcherCoreImpl)
  : WatcherCoreImpl * option EnrichedEvent.t := (c, None).

Definition getMetrics (c : WatcherCoreImpl) : Metrics :=
  {| events_received := events_received_ c;
     events_processed := events_processed_ c;
     events_dropped := events_dropped_ c;
     callbacks_failed := 0;
     queue_depth :=
       Z.land (match event_queue_ c with
               | Some q => size q
               | None => 0
               end) (Z.ones 32) |}.

(** ** The variable registry *)

(** What [registerPage] reads from outside the object: the clock (once
    for the id, once for [registered_at]), the result of the
    [UFFDIO_REGISTER] ioctl, and the bytes of host memory. *)
Record RegisterEnv : Type := mkRegisterEnv {
  now_id : Z;
  uffdio_register_ret : Z;
  memory : Z -> Byte.byte;
  now_registered : Z
}.

(** ["var-" << now << "-" << counter] *)
Definition make_variable_id (now cnt : Z) : string :=
  "var-" +:+ pretty now +:+ "-" +:+ pretty cnt.

(** [memcpy(dst, src, n)]: the [n] bytes at [src], [src + 1], ... *)
Definition memcpy_from (mem : Z -> Byte.byte) (src n : Z) : list Byte.byte :=
  (λ i, mem (src + i)) <$> seqZ 0 n.

(** The snapshot vector is constructed, with [page_size] elements,
    before the null test.  Beyond [vector_max_size] the construction
    throws and the call is left at that point: the counter has advanced,
    nothing else is done and no id reaches the caller, which is rendered
    here by the empty id.  [registerPage_throws] below tells these calls
    from the ones that return. *)
Definition registerPage (c : WatcherCoreImpl) (page_base page_size : Z)
  (name : string) (flags : Z) (mutation_depth : MutationDepth)
  (env : RegisterEnv) : WatcherCoreImpl * string :=
  if bool_decide (state_ c = STOPPED) || bool_decide (state_ c = ERROR) then
    (c, "")
  else
    let variable_id := make_variable_id (now_id env) (counter c) in
    let c1 := set_counter (wrap64 (counter c + 1)) c in
    if (bool_decide (state_ c = RUNNING) || bool_decide (state_ c = PAUSED))
       && (uffdio_register_ret env <? 0) then
      (c1, "")
    else if vector_max_size <? page_size then
      (c1, "")
    else if page_base =? 0 then
      (set_error_message_ "Cannot snapshot null page_base address" c1, "")
    else
      let snapshot := memcpy_from (memory env) page_base page_size in
      let meta :=
        VariableMetadata.mk variable_id page_base page_size name flags
          mutation_depth snapshot (now_registered env) in
      (set_variables_ (<[variable_id := meta]> (variables_ c1)) c1,
       variable_id).

(** Whether the call of [registerPage] ends in [std::length_error]: it
    gets as far as the construction of the vector, and the length is
    beyond [vector_max_size]. *)
Definition registerPage_throws (c : WatcherCoreImpl) (page_size : Z)
  (env : RegisterEnv) : bool :=
  negb (bool_decide (state_ c = STOPPED) || bool_decide (state_ c = ERROR))
  && negb ((bool_decide (state_ c = RUNNING) || bool_decide (state_ c = PAUSED))
           && (uffdio_register_ret env <? 0))
  && (vector_max_size <? page_size).

Definition unregisterPage (c : WatcherCoreImpl) (variable_id : string)
  : WatcherCoreImpl * bool :=
  match variables_ c !! variable_id with
  | None => (c, false)
  | Some _ => (set_variables_ (delete variable_id (variables_ c)) c, true)
  end.

Definition readSnapshot (c : WatcherCoreImpl) (variable_id : string)
  : list Byte.byte :=
  match variables_ c !! variable_id with
  | None => []
  | Some meta => VariableMetadata.initial_snapshot meta
  end.

Definition set_initial_snapshot (snapshot : list Byte.byte)
  (meta : VariableMetadata.t) : VariableMetadata.t :=
  VariableMetadata.mk (VariableMetadata.variable_id meta)
    (VariableMetadata.page_base meta) (VariableMetadata.page_size meta)
    (VariableMetadata.name meta) (VariableMetadata.flags meta)
    (VariableMetadata.mutation_depth meta) snapshot
    (VariableMetadata.registered_at meta).

Definition writeSnapshot (c : WatcherCoreImpl) (variable_id : string)
  (snapshot : list Byte.byte) : WatcherCoreImpl * bool :=
  match variables_ c !! variable_id with
  | None => (c, false)
  | Some meta =>
      (set_variables_
         (<[variable_id := set_initial_snapshot snapshot meta]> (variables_ c))
         c, true)
  end.

Definition updateMetadata (c : WatcherCoreImpl) (variable_id : string)
  (metadata : VariableMetadata.t) : WatcherCoreImpl * bool :=
  match variables_ c !! variable_id with
  | None => (c, false)
  | Some _ =>
      (set_variables_ (<[variable_id := metadata]> (variables_ c)) c, true)
  end.

(** ** The fast-path handler *)

(** The fields of [struct uffd_msg] the handler reads. *)
Record uffd_msg : Set := mk_uffd_msg {
  event : Z;
  address : Z;       (* arg.pagefault.address *)
  ptid : Z           (* arg.pagefault.feat.ptid *)
}.

(** [UFFD_EVENT_PAGEFAULT] and [sizeof(struct uffd_msg)] of
    [<linux/userfaultfd.h>]. *)
Definition UFFD_EVENT_PAGEFAULT : Z := 0x12.
Definition sizeof_uffd_msg : Z := 32.

(** What [handlePageFault] reads from outside the object: the instruction
    pointer that [extractInstructionPointer] parses out of
    [/proc/<tid>/syscall] (0 when that fails), the clock (once for the
    event id, once for the timestamp), and the results of the two
    [UFFDIO_WRITEPROTECT] ioctls. *)
Record FaultEnv : Set := mkFaultEnv {
  extracted_ip : Z;
  now_event_id : Z;
  now_ts : Z;
  unprotect_ret : Z;
  reprotect_ret : Z
}.

(** [address & ~(PAGE_SIZE - 1)] on [uint64_t]. *)
Definition page_base_of (addr : Z) : Z :=
  Z.land addr (wrap64 (Z.lnot (PAGE_SIZE - 1))).

Definition make_event (msg : uffd_msg) (env : FaultEnv) : FastPathEvent.t :=
  FastPathEvent.mk ("evt-" +:+ pretty (now_event_id env))
    (wrap64 (now_ts env * 1000000))
    (page_base_of (address msg)) (address msg) (wrap_int32 (ptid msg))
    (extracted_ip env).

Definition drop_one (c : WatcherCoreImpl) : WatcherCoreImpl :=
  set_events_dropped_ (wrap64 (events_dropped_ c + 1)) c.

Definition receive_one (c : WatcherCoreImpl) : WatcherCoreImpl :=
  set_events_received_ (wrap64 (events_received_ c + 1)) c.

(** [handlePageFault] dereferences [event_queue_]; on a null pointer the
    result is [None]. *)
Definition handlePageFault (c : WatcherCoreImpl) (msg : uffd_msg)
  (env : FaultEnv) : option WatcherCoreImpl :=
  match event_queue_ c with
  | None => None
  | Some q =>
      let '(q', ok) := enqueue q (make_event msg env) in
      let c1 := set_event_queue_ (Some q') c in
      let c2 := if ok then receive_one c1 else drop_one c1 in
      if unprotect_ret env <? 0 then Some (drop_one c2)
      else if reprotect_ret env <? 0 then Some (drop_one c2)
      else Some c2
  end.

(** The [for] loop of [handlerLoop] over the messages read. *)
Fixpoint handle_msgs (c : WatcherCoreImpl) (ms : list (uffd_msg * FaultEnv))
  : option WatcherCoreImpl :=
  match ms with
  | [] => Some c
  | (m, e) :: rest =>
      if Z.land (event m) UFFD_EVENT_PAGEFAULT =? 0 then handle_msgs c rest
      else
        match handlePageFault c m e with
        | None => None
        | Some c' => handle_msgs c' rest
        end
  end.

(** One round of the [while (running_)] loop: the result of [poll], the
    result of [read], and the message buffer with, for each message, the
    readings its handling makes. *)
Record PollEnv : Set := mkPollEnv {
  poll_ret : Z;
  nread : Z;
  msgs : list (uffd_msg * FaultEnv)
}.

Definition handlerLoop_body (c : WatcherCoreImpl) (env : PollEnv)
  : option WatcherCoreImpl :=
  if poll_ret env <=? 0 then Some c
  else if nread env <=? 0 then Some c
  else handle_msgs c (take (Z.to_nat (nread env / sizeof_uffd_msg)) (msgs env)).

Fixpoint handlerLoop (c : WatcherCoreImpl) (rounds : list PollEnv)
  : option WatcherCoreImpl :=
  match rounds with
  | [] => Some c
  | env :: rest =>
      if running_ c then
        match handlerLoop_body c env with
        | None => None
        | Some c' => handlerLoop c' rest
        end
      else Some c
  end.

(** ** The slow path

    The body of [slowPathLoop] only sleeps: a round leaves the object as
    it is. *)
Definition slowPathLoop_body (c : WatcherCoreImpl) : WatcherCoreImpl := c.

Fixpoint slowPathLoop (c : WatcherCoreImpl) (rounds : nat) : WatcherCoreImpl :=
  match rounds with
  | O => c
  | S n => if running_ c then slowPathLoop (slowPathLoop_body c) n else c
  end.

(** ** Runs of the queue and of the pipeline *)

(** A run of the queue on its own: the producer enqueues, the consumer
    dequeues. *)
Inductive queue_op : Set :=
| Enqueue (event : FastPathEvent.t)
| Dequeue.

Definition queue_step (q : EventQueue) (op : queue_op) : EventQueue :=
  match op with
  | Enqueue e => fst (enqueue q e)
  | Dequeue => fst (dequeue q)
  end.

Definition run_queue (q : EventQueue) (ops : list queue_op) : EventQueue :=
  foldl queue_step q ops.

(** A run of the pipeline: the handler handles a fault record, or the
    consumer side takes an event out of the queue.  The result carries the
    events taken out, oldest first. *)
Inductive pipeline_op : Set :=
| Fault (msg : uffd_msg) (env : FaultEnv)
| Consume.

Definition consume (c : WatcherCoreImpl)
  : option (WatcherCoreImpl * option FastPathEvent.t) :=
  match event_queue_ c with
  | None => None
  | Some q =>
      let '(q', e) := dequeue q in Some (set_event_queue_ (Some q') c, e)
  end.

Fixpoint run_pipeline (c : WatcherCoreImpl) (ops : list pipeline_op)
  : option (WatcherCoreImpl * list FastPathEvent.t) :=
  match ops with
  | [] => Some (c, [])
  | Fault msg env :: rest =>
      match handlePageFault c msg env with
      | None => None
      | Some c' => run_pipeline c' rest
      end
  | Consume :: rest =>
      match consume c with
      | None => None
      | Some (c', e) =>
          match run_pipeline c' rest with
          | None => None
          | Some (c'', out) => Some (c'', option_list e ++ out)
          end
      end
  end.

(** Whether one of the two write-protect ioctls of a fault fails. *)
Definition wp_failed (env : FaultEnv) : bool :=
  (unprotect_ret env <? 0) || (reprotect_ret env <? 0).

(** Number of fault records in a run, and number of them at which a
    write-protect ioctl failed. *)
Fixpoint records (ops : list pipeline_op) : Z :=
  match ops with
  | [] => 0
  | Fault _ _ :: rest => 1 + records rest
  | Consume :: rest => records rest
  end.

Fixpoint wp_failures (ops : list pipeline_op) : Z :=
  match ops with
  | [] => 0
  | Fault _ env :: rest => (if wp_failed env then 1 else 0) + wp_failures rest
  | Consume :: rest => wp_failures rest
  end.

(** ** Invariants *)

(** The counter of the queue agrees with its list, and the list is within
    the capacity, a [size_t]. *)
Definition queue_wf (q : EventQueue) : Prop :=
  size_ q = Z.of_nat (length (nodes q))
  /\ size_ q <= capacity_ q
  /\ capacity_ q < 2 ^ 64.

(** The object has a well-formed queue and its two fault counters are
    [uint64_t] values. *)
Definition core_wf (c : WatcherCoreImpl) : Prop :=
  (exists q, event_queue_ c = Some q /\ queue_wf q)
  /\ is_size_t (events_received_ c)
  /\ is_size_t (events_dropped_ c).

(** ** Strings *)

(** [haystack.find(needle) != npos] *)
Fixpoint str_contains (needle haystack : string) : bool :=
  String.prefix needle haystack
  || match haystack with
     | EmptyString => false
     | String _ rest => str_contains needle rest
     end.

(** ** Concrete runs used in the examples below *)

(** A successful [initialize]: descriptor 3, both calls succeed. *)
Definition init_ok : InitEnv := mkInitEnv 3 "" 0 "".

Definition zero_memory : Z -> Byte.byte := λ _, Byte.x00.

Definition page_addr : Z := 0x7f0000001000.

Definition register_ok : RegisterEnv :=
  mkRegisterEnv 1700000000 0 zero_memory 1700000001.

Definition whole_page : MutationDepth := mkMutationDepth true 0.

(** [initialize("/tmp/x", 16)] on a fresh object. *)
Definition core_initialized : WatcherCoreImpl :=
  fst (initialize WatcherCoreImpl_new "/tmp/x" 16 init_ok).

(** One page of 4096 zero bytes registered under the name "v". *)
Definition core_registered : WatcherCoreImpl :=
  fst (registerPage core_initialized page_addr 4096 "v" FLAG_TRACK_THREADS
         whole_page register_ok).

Definition registered_id : string :=
  snd (registerPage core_initialized page_addr 4096 "v" FLAG_TRACK_THREADS
         whole_page register_ok).

Definition core_running : WatcherCoreImpl := fst (start core_registered).

Definition core_paused : WatcherCoreImpl := fst (pause core_running).

(** The fault record of a write at offset 128 of the registered page, by
    thread 4242, with both write-protect ioctls succeeding. *)
Definition fault_at_128 : uffd_msg :=
  mk_uffd_msg UFFD_EVENT_PAGEFAULT (page_addr + 128) 4242.

Definition fault_ok : FaultEnv := mkFaultEnv 0x401000 1700000002 1700000003 0 0.

(** The same readings, but the first write-protect ioctl fails. *)
Definition fault_unprotect_fails : FaultEnv :=
  mkFaultEnv 0x401000 1700000002 1700000003 (-1) 0.

(** One round of the handler loop that reads exactly that record. *)
Definition round_one_fault : PollEnv :=
  mkPollEnv 1 sizeof_uffd_msg [(fault_at_128, fault_ok)].

(** A descriptor that names another variable and another registration
    time than the registered one. *)
Definition other_descriptor : VariableMetadata.t :=
  VariableMetadata.mk "var-0-99" page_addr 4096 "w" FLAG_TRACK_SQL whole_page
    [] 7.

(** Three registrations on the initialized core: a base one byte past a
    page boundary, a length of zero, and a length of 100 bytes. *)
Definition register_unaligned : WatcherCoreImpl * string :=
  registerPage core_initialized (page_addr + 1) 4096 "v" FLAG_TRACK_THREADS
    whole_page register_ok.

Definition register_empty : WatcherCoreImpl * string :=
  registerPage core_initialized page_addr 0 "v" FLAG_TRACK_THREADS
    whole_page register_ok.

Definition register_partial : WatcherCoreImpl * string :=
  registerPage core_initialized page_addr 100 "v" FLAG_TRACK_THREADS
    whole_page register_ok.

(** A run with a fault that is enqueued, a take-out, and a fault whose
    first write-protect ioctl fails. *)
Definition run_three : list pipeline_op :=
  [Fault fault_at_128 fault_ok; Consume;
   Fault fault_at_128 fault_unprotect_fails].

(** Five fault records in a row, none taken out. *)
Definition run_five_faults : list pipeline_op :=
  replicate 5 (Fault fault_at_128 fault_ok).

(** The core of the runs above, but with a queue of capacity 2. *)
Definition core_running_cap2 : WatcherCoreImpl :=
  set_event_queue_ (Some (EventQueue_new 2)) core_running.

(** ** Further runs of the queue, the handler and the whole interface *)

(** The producer offers a list of events one after the other; the result
    carries the answer of each [enqueue]. *)
Fixpoint enqueue_all (q : EventQueue) (es : list FastPathEvent.t)
  : EventQueue * list bool :=
  match es with
  | [] => (q, [])
  | e :: rest =>
      let '(q1, ok) := enqueue q e in
      let '(q2, oks) := enqueue_all q1 rest in
      (q2, ok :: oks)
  end.

(** The consumer calls [dequeue] [n] times; the result carries the events
    it got, in the order it got them. *)
Fixpoint dequeue_n (q : EventQueue) (n : nat)
  : EventQueue * list FastPathEvent.t :=
  match n with
  | O => (q, [])
  | S k =>
      let '(q1, e) := dequeue q in
      let '(q2, out) := dequeue_n q1 k in
      (q2, option_list e ++ out)
  end.

(** The fault a buffer entry gives rise to in [handlerLoop]: none when its
    [event] field has no bit in common with [UFFD_EVENT_PAGEFAULT]. *)
Definition msg_ops (me : uffd_msg * FaultEnv) : list pipeline_op :=
  if Z.land (event (fst me)) UFFD_EVENT_PAGEFAULT =? 0 then []
  else [Fault (fst me) (snd me)].

(** The faults one round of [handlerLoop] handles. *)
Definition round_ops (env : PollEnv) : list pipeline_op :=
  if poll_ret env <=? 0 then []
  else if nread env <=? 0 then []
  else flat_map msg_ops
         (take (Z.to_nat (nread env / sizeof_uffd_msg)) (msgs env)).

(** What can happen to the object: a call of the public interface, some
    rounds of the handler thread, or some rounds of the slow-path thread. *)
Inductive api_op : Type :=
| ApiInitialize (output_dir : string) (max_queue_size : Z) (env : InitEnv)
| ApiStart
| ApiPause
| ApiResume
| ApiStop (timeout_ms : Z)
| ApiRegisterPage (page_base page_size : Z) (name : string) (flags : Z)
    (mutation_depth : MutationDepth) (env : RegisterEnv)
| ApiUnregisterPage (variable_id : string)
| ApiWriteSnapshot (variable_id : string) (snapshot : list Byte.byte)
| ApiUpdateMetadata (variable_id : string) (metadata : VariableMetadata.t)
| ApiDequeueEvent
| ApiHandler (rounds : list PollEnv)
| ApiSlowPath (rounds : nat).

Definition api_step (c : WatcherCoreImpl) (op : api_op)
  : option WatcherCoreImpl :=
  match op with
  | ApiInitialize dir n env => Some (fst (initialize c dir n env))
  | ApiStart => Some (fst (start c))
  | ApiPause => Some (fst (pause c))
  | ApiResume => Some (fst (resume c))
  | ApiStop t => Some (fst (stop c t))
  | ApiRegisterPage base len name flags depth env =>
      Some (fst (registerPage c base len name flags depth env))
  | ApiUnregisterPage id => Some (fst (unregisterPage c id))
  | ApiWriteSnapshot id bytes => Some (fst (writeSnapshot c id bytes))
  | ApiUpdateMetadata id meta => Some (fst (updateMetadata c id meta))
  | ApiDequeueEvent => Some (fst (dequeueEvent c))
  | ApiHandler rounds => handlerLoop c rounds
  | ApiSlowPath n => Some (slowPathLoop c n)
  end.

Fixpoint run_api (c : WatcherCoreImpl) (ops : list api_op)
  : option WatcherCoreImpl :=
  match ops with
  | [] => Some c
  | op :: rest =>
      match api_step c op with
      | None => None
      | Some c' => run_api c' rest
      end
  end.

(** The queue capacity handed to [initialize] is a [size_t]. *)
Definition api_op_ok (op : api_op) : Prop :=
  match op with
  | ApiInitialize _ n _ => is_size_t n
  | _ => True
  end.

(** The state changes the code can make. *)
Definition transition (s s' : State) : bool :=
  match s, s' with
  | UNINITIALIZED, INITIALIZED
  | UNINITIALIZED, ERROR
  | INITIALIZED, RUNNING
  | INITIALIZED, STOPPED
  | RUNNING, PAUSED
  | RUNNING, STOPPED
  | PAUSED, RUNNING
  | PAUSED, STOPPED => true
  | _, _ => false
  end.

(** What holds of the object after any run that starts at the
    constructor. *)
Definition api_inv (c : WatcherCoreImpl) : Prop :=
  ((state_ c = UNINITIALIZED /\ event_queue_ c = None /\ uffd_ c = -1)
   \/ (state_ c <> UNINITIALIZED
       /\ exists q, event_queue_ c = Some q /\ queue_wf q))
  /\ running_ c = bool_decide (state_ c = RUNNING \/ state_ c = PAUSED)
  /\ handler_thread_ c = running_ c
  /\ slow_path_thread_ c = running_ c
  /\ events_processed_ c = 0
  /\ is_size_t (events_received_ c)
  /\ is_size_t (events_dropped_ c)
  /\ is_size_t (counter c)
  /\ (state_ c = ERROR -> uffd_ c < 0)
  /\ (state_ c = INITIALIZED \/ state_ c = RUNNING \/ state_ c = PAUSED
      \/ state_ c = STOPPED -> 0 <= uffd_ c).

(** ** Variable ids *)

(** The part of a string after its last '-' (the whole string when it has
    none). *)
Fixpoint after_last_dash (s : string) : string :=
  match s with
  | EmptyString => EmptyString
  | String a rest =>
      if str_contains "-" rest then after_last_dash rest
      else if String.eqb (String a EmptyString) "-" then rest
      else String a rest
  end.

(** A run of the interface: initialize with capacity 16, start, two
    handler rounds with one fault each, pause, a registration, stop. *)
Definition api_run_example : list api_op :=
  [ApiInitialize "/tmp/x" 16 init_ok; ApiStart;
   ApiHandler [round_one_fault; round_one_fault]; ApiPause;
   ApiRegisterPage page_addr 4096 "v" FLAG_TRACK_THREADS whole_page register_ok;
   ApiStop 5000].

(** An [initialize] whose [userfaultfd] system call fails. *)
Definition init_fails : InitEnv := mkInitEnv (-1) "Operation not permitted" 0 "".

(** Every registered id was made by [make_variable_id] from a counter
    value below the present one. *)
Definition ids_below (c : WatcherCoreImpl) : Prop :=
  forall id, is_Some (variables_ c !! id) ->
    exists now k, id = make_variable_id now k /\ 0 <= k < counter c.

(** ** The symbol cache

    [SymbolCache] maps an instruction pointer to an entry stamped with
    the time of insertion.  Time points of [system_clock] count
    nanoseconds in a signed 64-bit integer, and so does the difference
    of two of them; [duration_cast<seconds>] divides truncating towards
    zero.  The clock reading is an input of [get] and [set]. *)

Module SymbolCache.

Record Entry : Set := mkEntry {
  symbol : string;
  file : string;
  line : Z;
  timestamp : Z
}.

Definition TTL_SECONDS : Z := 3600.

Definition ticks_per_second : Z := 1000000000.

(** [get] returns the changed cache and, on a hit, the three values it
    writes to its out-parameters. *)
Definition get (cache_ : gmap Z Entry) (ip now : Z)
  : gmap Z Entry * option (string * string * Z) :=
  match cache_ !! ip with
  | None => (cache_, None)
  | Some e =>
      let age := Z.quot (wrap_int64 (now - timestamp e)) ticks_per_second in
      if age >? TTL_SECONDS then (delete ip cache_, None)
      else (cache_, Some (symbol e, file e, line e))
  end.

Definition set (cache_ : gmap Z Entry) (ip : Z) (symbol file : string)
  (line now : Z) : gmap Z Entry :=
  <[ip := mkEntry symbol file line now]> cache_.

Definition clear (cache_ : gmap Z Entry) : gmap Z Entry := ∅.

End SymbolCache.

(** ** Reading the instruction pointer

    [extractInstructionPointer] reads the first line of
    [/proc/<tid>/syscall] and parses the text after its last space as a
    hexadecimal number.  The content of the file ([None] when it cannot
    be opened) is an input; [std::stoull(_, nullptr, 16)] of the standard
    library is a parameter, [None] standing for a thrown exception. *)

Definition newline : string := String (Ascii.ascii_of_nat 10) EmptyString.

(** The characters before the first newline. *)
Fixpoint before_newline (s : string) : string :=
  match s with
  | EmptyString => EmptyString
  | String a rest =>
      if String.eqb (String a EmptyString) newline then EmptyString
      else String a (before_newline rest)
  end.

(** [std::getline]: fails on an empty stream, otherwise yields the
    characters before the first newline. *)
Definition getline (content : string) : option string :=
  match content with
  | EmptyString => None
  | _ => Some (before_newline content)
  end.

(** [line.rfind(' ')]: the position of the last space. *)
Fixpoint rfind_space (s : string) : option nat :=
  match s with
  | EmptyString => None
  | String a rest =>
      match rfind_space rest with
      | Some i => Some (S i)
      | None => if String.eqb (String a EmptyString) " " then Some O else None
      end
  end.

(** [line.substr(pos)] *)
Definition substr (s : string) (pos : nat) : string :=
  String.substring pos (String.length s - pos) s.

Section ExtractInstructionPointer.

Variable stoull16 : string -> option Z.

Definition extractInstructionPointer (proc_syscall : option string) : Z :=
  match proc_syscall with
  | None => 0
  | Some content =>
      match getline content with
      | None => 0
      | Some line =>
          match rfind_space line with
          | None => 0
          | Some last_space =>
              match stoull16 (substr line (last_space + 1)) with
              | Some v => v
              | None => 0
              end
          end
      end
  end.

End ExtractInstructionPointer.

(** ** The C interface for Python ([adapters/python/adapter.cpp])

    Each function acts on the one core object; the [thread_local] buffer
    it returns a pointer into is modelled by the string it holds. *)

Definition watcher_initialize (c : WatcherCoreImpl) (output_dir : string)
  (env : InitEnv) : WatcherCoreImpl * string :=
  let '(c', ok) := initialize c output_dir EVENT_QUEUE_CAPACITY env in
  if ok then (c', "OK") else (c', getErrorMessage c').

Definition watcher_start (c : WatcherCoreImpl) : WatcherCoreImpl * bool :=
  start c.

Definition watcher_stop (c : WatcherCoreImpl) : WatcherCoreImpl * bool :=
  stop c 5000.


Definition watcher_unregister_page (c : WatcherCoreImpl) (variable_id : string)
  : WatcherCoreImpl * bool :=
  unregisterPage c variable_id.

(** The bytes behind the returned pointer, and [*out_len]. *)
Definition watcher_read_snapshot (c : WatcherCoreImpl) (variable_id : string)
  : list Byte.byte * Z :=
  let snapshot := readSnapshot c variable_id in
  (snapshot, Z.of_nat (length snapshot)).

(** The vector is built from the [len] bytes of host memory at [data]. *)
Definition watcher_write_snapshot (c : WatcherCoreImpl) (variable_id : string)
  (mem : Z -> Byte.byte) (data len : Z) : WatcherCoreImpl * bool :=
  writeSnapshot c variable_id (memcpy_from mem data len).

Definition dquote : string := String (Ascii.ascii_of_nat 34) EmptyString.

(** [std::hex] output of an unsigned value. *)
Definition hex (z : Z) : string :=
  HexadecimalString.NilZero.string_of_uint (N.to_hex_uint (Z.to_N z)).

Definition event_json (e : EnrichedEvent.t) : string :=
  "{"
  +:+ dquote +:+ "event_id" +:+ dquote +:+ ":" +:+ dquote
  +:+ EnrichedEvent.event_id e +:+ dquote +:+ ","
  +:+ dquote +:+ "timestamp_ns" +:+ dquote +:+ ":"
  +:+ pretty (EnrichedEvent.ts_ns e) +:+ ","
  +:+ dquote +:+ "ip" +:+ dquote +:+ ":" +:+ pretty (EnrichedEvent.ip e) +:+ ","
  +:+ dquote +:+ "tid" +:+ dquote +:+ ":" +:+ pretty (EnrichedEvent.tid e) +:+ ","
  +:+ dquote +:+ "page_base" +:+ dquote +:+ ":" +:+ dquote +:+ "0x"
  +:+ hex (EnrichedEvent.page_base e) +:+ dquote
  +:+ "}".

Definition watcher_dequeue_fast_path_event (c : WatcherCoreImpl)
  : WatcherCoreImpl * string :=
  let '(c', event) := dequeueEvent c in
  match event with
  | None => (c', "")
  | Some e => (c', event_json e)
  end.

(** The enumerators of [State] in the order of their declaration. *)
Definition State_to_int (s : State) : Z :=
  match s with
  | UNINITIALIZED => 0
  | INITIALIZED => 1
  | RUNNING => 2
  | PAUSED => 3
  | STOPPED => 4
  | ERROR => 5
  end.

Definition watcher_get_state (c : WatcherCoreImpl) : Z :=
  State_to_int (getState c).

Definition watcher_get_error (c : WatcherCoreImpl) : string :=
  getErrorMessage c.

(** ** The bindings for JavaScript ([adapters/javascript/adapter.cpp])

    [g_core] is a pointer to the one core object, null until
    [Initialize] has set it.  A binding either throws a JavaScript error
    or returns a value.  Whether the N-API calls of [Initialize] succeed,
    and the string they decode, are inputs. *)

Inductive napi_result : Set :=
| Throw (message : string)
| ReturnBoolean (b : bool)
| ReturnUint32 (n : Z).

Record JsModule : Type := mkJsModule {
  g_core : bool;               (* g_core != nullptr *)
  js_core : WatcherCoreImpl    (* WatcherCore::getInstance() *)
}.

Definition Initialize (m : JsModule) (cb_info_ok string_ok : bool)
  (output_dir : string) (env : InitEnv) : JsModule * napi_result :=
  if negb cb_info_ok then (m, Throw "Failed to get callback info")
  else if negb string_ok then (m, Throw "Failed to get output directory")
  else
    let '(c', ok) := initialize (js_core m) output_dir EVENT_QUEUE_CAPACITY env in
    if negb ok then
      (mkJsModule true c', Throw "Failed to initialize watcher core")
    else (mkJsModule true c', ReturnBoolean true).

Definition Start (m : JsModule) : JsModule * napi_result :=
  if negb (g_core m) then (m, Throw "Watcher core not initialized")
  else
    let '(c', success) := start (js_core m) in
    (mkJsModule (g_core m) c', ReturnBoolean success).

Definition Stop (m : JsModule) : JsModule * napi_result :=
  if negb (g_core m) then (m, Throw "Watcher core not initialized")
  else
    let '(c', success) := stop (js_core m) 5000 in
    (mkJsModule (g_core m) c', ReturnBoolean success).

Definition GetState (m : JsModule) : JsModule * napi_result :=
  if negb (g_core m) then (m, Throw "Watcher core not initialized")
  else (m, ReturnUint32 (State_to_int (getState (js_core m)))).

(** The module as loaded: no core pointer yet, the core as constructed. *)
Definition JsModule_new : JsModule := mkJsModule false WatcherCoreImpl_new.

(** * Properties *)

(** ** Arithmetic modulo [2^64] *)

Lemma wrap64_small (z : Z) : 0 <= z < 2 ^ 64 -> wrap64 z = z.
Proof. intros H. unfold wrap64. apply Z.mod_small. exact H. Qed.

Lemma wrap64_add_l (a b : Z) : wrap64 (wrap64 a + b) = wrap64 (a + b).
Proof. unfold wrap64. apply Zplus_mod_idemp_l. Qed.

Lemma wrap64_range (z : Z) : 0 <= wrap64 z < 2 ^ 64.
Proof. unfold wrap64. apply Z.mod_pos_bound. lia. Qed.

(** ** Substrings *)

Lemma prefix_app (n h : string) :
  String.prefix n h = true -> exists post, h = n +:+ post.
Proof.
  revert h. induction n as [|a n IH]; intros h H.
  - exists h. reflexivity.
  - destruct h as [|b h]; simpl in H; [discriminate|].
    destruct (Ascii.ascii_dec a b) as [->|]; [|discriminate].
    destruct (IH h H) as [post ->]. exists post. reflexivity.
Qed.

Lemma str_contains_app (n h : string) :
  str_contains n h = true -> exists pre post, h = pre +:+ n +:+ post.
Proof.
  induction h as [|a h IH]; cbn [str_contains]; intros H.
  - apply orb_true_iff in H as [H|H]; [|discriminate].
    destruct (prefix_app _ _ H) as [post E]. exists "", post. exact E.
  - apply orb_true_iff in H as [H|H].
    + destruct (prefix_app _ _ H) as [post E]. exists "", post. exact E.
    + destruct (IH H) as (pre & post & ->).
      exists (String a pre), post. reflexivity.
Qed.

(** ** Lifecycle *)

(** C9: [start] called in UNINITIALIZED returns false, leaves the state
    UNINITIALIZED (only the error message changes), and the error message
    then contains "not initialized". *)
Theorem start_uninitialized (c : WatcherCoreImpl) :
  state_ c = UNINITIALIZED ->
  start c = (set_error_message_ "Core not initialized" c, false)
  /\ getState (fst (start c)) = UNINITIALIZED
  /\ str_contains "not initialized" (getErrorMessage (fst (start c))) = true
  /\ exists pre post,
       getErrorMessage (fst (start c)) = pre +:+ "not initialized" +:+ post.
Proof.
  intros Hs.
  assert (E : start c = (set_error_message_ "Core not initialized" c, false)).
  { unfold start. rewrite Hs. reflexivity. }
  rewrite E. simpl. repeat split; try assumption.
  exists "Core ", "". reflexivity.
Qed.

Lemma start_uninitialized_witness :
  state_ WatcherCoreImpl_new = UNINITIALIZED
  /\ snd (start WatcherCoreImpl_new) = false
  /\ getState (fst (start WatcherCoreImpl_new)) = UNINITIALIZED.
Proof.
  split; [reflexivity|].
  destruct (start_uninitialized WatcherCoreImpl_new eq_refl) as (E & Hs & _).
  split; [rewrite E; reflexivity | exact Hs].
Defined.

(** C10: [stop] called in UNINITIALIZED returns true and changes nothing
    (the state stays UNINITIALIZED, the thread handles and the running
    flag are not touched); called in ERROR it returns false, again
    changing nothing. *)
Theorem stop_uninitialized_or_error (c : WatcherCoreImpl) (timeout_ms : Z) :
  (state_ c = UNINITIALIZED ->
   stop c timeout_ms = (c, true)
   /\ getState (fst (stop c timeout_ms)) = UNINITIALIZED)
  /\ (state_ c = ERROR -> stop c timeout_ms = (c, false)).
Proof.
  split; intros Hs; unfold stop, getState; rewrite Hs; simpl; auto.
Qed.

Lemma stop_uninitialized_or_error_witness :
  stop WatcherCoreImpl_new 5000 = (WatcherCoreImpl_new, true)
  /\ stop (set_state_ ERROR WatcherCoreImpl_new) 5000
     = (set_state_ ERROR WatcherCoreImpl_new, false).
Proof.
  split.
  - apply (stop_uninitialized_or_error WatcherCoreImpl_new 5000). reflexivity.
  - apply (stop_uninitialized_or_error (set_state_ ERROR WatcherCoreImpl_new)
             5000).
    reflexivity.
Defined.

(** ** Registry *)

Lemma make_variable_id_nonempty (now cnt : Z) : make_variable_id now cnt <> "".
Proof. unfold make_variable_id. discriminate. Qed.

(** C5 (as amended): on a core that has been through [initialize], and
    for a length from 0 to [vector_max_size] (so that the call returns),
    [registerPage] returns the empty id exactly when the core is STOPPED
    or ERROR, or it is RUNNING or PAUSED and the [UFFDIO_REGISTER] ioctl
    fails, or the base address is null, and then the registry is
    unchanged.  Alignment and length are not examined: in every other
    case the descriptor, with the given base and length and a snapshot of
    that many bytes, is stored under the returned id. *)
Theorem registerPage_outcome (c : WatcherCoreImpl) (base len : Z)
  (name : string) (flags : Z) (depth : MutationDepth) (env : RegisterEnv) :
  state_ c <> UNINITIALIZED ->
  0 <= len <= vector_max_size ->
  let r := registerPage c base len name flags depth env in
  (snd r = ""
   <-> state_ c = STOPPED \/ state_ c = ERROR
       \/ ((state_ c = RUNNING \/ state_ c = PAUSED)
           /\ uffdio_register_ret env < 0)
       \/ base = 0)
  /\ (snd r = "" -> variables_ (fst r) = variables_ c)
  /\ (snd r <> "" ->
      snd r = make_variable_id (now_id env) (counter c)
      /\ variables_ (fst r)
         = <[snd r := VariableMetadata.mk (snd r) base len name flags depth
                        (memcpy_from (memory env) base len)
                        (now_registered env)]> (variables_ c)
      /\ length (memcpy_from (memory env) base len) = Z.to_nat len).
Proof.
  intros Hinit Hmax.
  pose proof (make_variable_id_nonempty (now_id env) (counter c)) as Hne.
  assert (Hlen : length (memcpy_from (memory env) base len) = Z.to_nat len).
  { unfold memcpy_from. rewrite length_fmap. apply length_seqZ. }
  assert (Hv : (vector_max_size <? len) = false) by (apply Z.ltb_ge; lia).
  unfold registerPage. rewrite Hv.
  destruct (state_ c) eqn:Hs; [contradiction|..]; simpl;
    destruct (Z.ltb_spec (uffdio_register_ret env) 0) as [Hr|Hr];
    destruct (Z.eqb_spec base 0) as [Hb|Hb]; simpl;
    (split; [split; [intros E; try (exfalso; exact (Hne E)); tauto
                    | intros E; try reflexivity; exfalso;
                      repeat (destruct E as [E|E]; try discriminate);
                      try lia;
                      try (destruct E as [[E|E] ?]; (discriminate || lia))]
           | split; [intros E; try reflexivity; exfalso; exact (Hne E)
                    | intros E; try (exfalso; apply E; reflexivity);
                      auto]]).
Qed.

Lemma registerPage_outcome_witness :
  snd register_unaligned <> ""
  /\ variables_ (fst register_unaligned) !! snd register_unaligned
     = Some (VariableMetadata.mk (snd register_unaligned) (page_addr + 1) 4096
               "v" FLAG_TRACK_THREADS whole_page
               (memcpy_from zero_memory (page_addr + 1) 4096) 1700000001).
Proof.
  assert (Hne : snd register_unaligned <> "") by (vm_compute; discriminate).
  split; [exact Hne|].
  destruct (registerPage_outcome core_initialized (page_addr + 1) 4096 "v"
              FLAG_TRACK_THREADS whole_page register_ok) as (_ & _ & H).
  { discriminate. }
  { unfold vector_max_size. lia. }
  destruct (H Hne) as (_ & Hv & _).
  unfold register_unaligned. rewrite Hv. apply lookup_insert_eq.
Defined.

(** C5 (counterexample): on the initialized core a registration whose
    base is not page-aligned, one whose length is zero and one whose
    length is not a multiple of the page size all return a non-empty id
    and insert their descriptor. *)
Lemma registerPage_no_validation :
  (page_addr + 1) mod PAGE_SIZE <> 0
  /\ snd register_unaligned <> ""
  /\ is_Some (variables_ (fst register_unaligned) !! snd register_unaligned)
  /\ snd register_empty <> ""
  /\ is_Some (variables_ (fst register_empty) !! snd register_empty)
  /\ 100 mod PAGE_SIZE <> 0
  /\ snd register_partial <> ""
  /\ is_Some (variables_ (fst register_partial) !! snd register_partial).
Proof.
  repeat split; try (vm_compute; discriminate); vm_compute; eauto.
Qed.

Lemma writeSnapshot_success (c : WatcherCoreImpl) (id : string)
  (bytes : list Byte.byte) :
  snd (writeSnapshot c id bytes) = true <-> is_Some (variables_ c !! id).
Proof.
  unfold writeSnapshot. destruct (variables_ c !! id) as [meta|]; simpl.
  - split; eauto.
  - split; [discriminate | intros [? ?]; discriminate].
Qed.

(** C6 (as amended): [writeSnapshot(id, bytes)] succeeds exactly when
    [id] is registered, whatever the length of [bytes].  On success the
    stored pre-image is [bytes], the other fields of the descriptor and
    every other descriptor are as before; on failure nothing changes. *)
Theorem writeSnapshot_outcome (c : WatcherCoreImpl) (id : string)
  (bytes : list Byte.byte) :
  (snd (writeSnapshot c id bytes) = true <-> is_Some (variables_ c !! id))
  /\ (forall meta, variables_ c !! id = Some meta ->
      variables_ (fst (writeSnapshot c id bytes)) !! id
      = Some (set_initial_snapshot bytes meta)
      /\ readSnapshot (fst (writeSnapshot c id bytes)) id = bytes)
  /\ (forall id', id' <> id ->
      variables_ (fst (writeSnapshot c id bytes)) !! id' = variables_ c !! id')
  /\ (snd (writeSnapshot c id bytes) = false ->
      fst (writeSnapshot c id bytes) = c).
Proof.
  split; [apply writeSnapshot_success|].
  unfold writeSnapshot, readSnapshot.
  destruct (variables_ c !! id) as [meta|] eqn:Hl; simpl.
  - split; [|split].
    + intros m [= <-]. rewrite lookup_insert_eq. split; reflexivity.
    + intros id' Hne. apply lookup_insert_ne. congruence.
    + discriminate.
  - split; [|split].
    + discriminate.
    + reflexivity.
    + reflexivity.
Qed.

Lemma writeSnapshot_outcome_witness :
  is_Some (variables_ core_registered !! registered_id)
  /\ snd (writeSnapshot core_registered registered_id [Byte.x41; Byte.x42])
     = true.
Proof.
  assert (H : is_Some (variables_ core_registered !! registered_id))
    by (vm_compute; eauto).
  split; [exact H|].
  apply (writeSnapshot_outcome core_registered registered_id
           [Byte.x41; Byte.x42]).
  exact H.
Defined.

(** C6 (counterexample): the registered descriptor has length 4096 and a
    pre-image of 4096 bytes; writing a one-byte sequence succeeds and the
    stored pre-image becomes that one byte. *)
Lemma writeSnapshot_accepts_other_length :
  VariableMetadata.page_size <$> variables_ core_registered !! registered_id
  = Some 4096
  /\ length (readSnapshot core_registered registered_id) = 4096%nat
  /\ length [Byte.x41] <> 4096%nat
  /\ snd (writeSnapshot core_registered registered_id [Byte.x41]) = true
  /\ readSnapshot (fst (writeSnapshot core_registered registered_id [Byte.x41]))
       registered_id = [Byte.x41].
Proof.
  repeat split; try (vm_compute; reflexivity). simpl. lia.
Qed.

(** C7 (as amended): [updateMetadata(id, descriptor)] succeeds exactly
    when [id] is registered, and then the entry stored under [id] is the
    argument in every field, its variable-id and registered-at included;
    the entries of other ids and the set of registered ids are as
    before. *)
Theorem updateMetadata_outcome (c : WatcherCoreImpl) (id : string)
  (metadata : VariableMetadata.t) :
  (snd (updateMetadata c id metadata) = true <-> is_Some (variables_ c !! id))
  /\ (snd (updateMetadata c id metadata) = true ->
      variables_ (fst (updateMetadata c id metadata)) !! id = Some metadata)
  /\ (forall id', id' <> id ->
      variables_ (fst (updateMetadata c id metadata)) !! id'
      = variables_ c !! id')
  /\ dom (variables_ (fst (updateMetadata c id metadata))) = dom (variables_ c).
Proof.
  unfold updateMetadata.
  destruct (variables_ c !! id) as [old|] eqn:Hl; simpl.
  - split; [split; eauto|]. split; [|split].
    + intros _. apply lookup_insert_eq.
    + intros id' Hne. apply lookup_insert_ne. congruence.
    + rewrite dom_insert_L. apply subseteq_union_1_L.
      apply singleton_subseteq_l, elem_of_dom. eauto.
  - split; [split; [discriminate | intros [? ?]; discriminate]|].
    split; [discriminate|]. split; reflexivity.
Qed.

Lemma updateMetadata_outcome_witness :
  snd (updateMetadata core_registered registered_id other_descriptor) = true
  /\ variables_
       (fst (updateMetadata core_registered registered_id other_descriptor))
     !! registered_id = Some other_descriptor.
Proof.
  assert (H : snd (updateMetadata core_registered registered_id
                     other_descriptor) = true) by (vm_compute; reflexivity).
  split; [exact H|].
  apply (updateMetadata_outcome core_registered registered_id other_descriptor).
  exact H.
Defined.

(** C7 (counterexample): the entry registered under [registered_id]
    carries that id and the registration time 1700000001; after a
    successful [updateMetadata] with [other_descriptor] the stored entry
    carries the id "var-0-99" and the time 7. *)
Lemma updateMetadata_replaces_id_and_time :
  VariableMetadata.variable_id <$> variables_ core_registered !! registered_id
  = Some registered_id
  /\ VariableMetadata.registered_at
       <$> variables_ core_registered !! registered_id = Some 1700000001
  /\ snd (updateMetadata core_registered registered_id other_descriptor) = true
  /\ VariableMetadata.variable_id
       <$> variables_
             (fst (updateMetadata core_registered registered_id
                     other_descriptor)) !! registered_id
     = Some "var-0-99"
  /\ VariableMetadata.registered_at
       <$> variables_
             (fst (updateMetadata core_registered registered_id
                     other_descriptor)) !! registered_id
     = Some 7
  /\ registered_id <> "var-0-99".
Proof.
  repeat split; try (vm_compute; reflexivity). vm_compute. discriminate.
Qed.

(** C8: after [writeSnapshot(id, bytes)] has succeeded, [readSnapshot(id)]
    returns [bytes], in the resulting object and in every later one in
    which the descriptor of [id] is still the one [writeSnapshot] left. *)
Theorem snapshot_round_trip (c c1 c2 : WatcherCoreImpl) (id : string)
  (bytes : list Byte.byte) :
  writeSnapshot c id bytes = (c1, true) ->
  variables_ c2 !! id = variables_ c1 !! id ->
  readSnapshot c1 id = bytes /\ readSnapshot c2 id = bytes.
Proof.
  intros Hw Hsame.
  assert (H1 : readSnapshot c1 id = bytes).
  { unfold writeSnapshot in Hw. unfold readSnapshot.
    destruct (variables_ c !! id) as [meta|]; [|discriminate].
    injection Hw as <-. simpl. rewrite lookup_insert_eq. reflexivity. }
  split; [exact H1|].
  unfold readSnapshot in *. rewrite Hsame. exact H1.
Qed.

Lemma snapshot_round_trip_witness :
  readSnapshot
    (fst (writeSnapshot core_registered registered_id (replicate 4096 Byte.x41)))
    registered_id = replicate 4096 Byte.x41.
Proof.
  apply (snapshot_round_trip core_registered
           (fst (writeSnapshot core_registered registered_id
                   (replicate 4096 Byte.x41)))
           (fst (writeSnapshot core_registered registered_id
                   (replicate 4096 Byte.x41)))
           registered_id (replicate 4096 Byte.x41)).
  - vm_compute. reflexivity.
  - reflexivity.
Defined.

(** ** The event queue *)

Lemma queue_wf_new (capacity : Z) :
  is_size_t capacity -> queue_wf (EventQueue_new capacity).
Proof. intros [H0 H1]. unfold queue_wf. simpl. lia. Qed.

Lemma enqueue_full (q : EventQueue) (e : FastPathEvent.t) :
  capacity_ q <= size q -> enqueue q e = (q, false).
Proof.
  intros H. unfold enqueue, size in *.
  destruct (Z.geb_spec (size_ q) (capacity_ q)); [reflexivity | lia].
Qed.

Lemma enqueue_room (q : EventQueue) (e : FastPathEvent.t) :
  size q < capacity_ q ->
  enqueue q e
  = (mkEventQueue (nodes q ++ [e]) (capacity_ q) (wrap64 (size_ q + 1)), true).
Proof.
  intros H. unfold enqueue, size in *.
  destruct (Z.geb_spec (size_ q) (capacity_ q)); [lia | reflexivity].
Qed.

Lemma enqueue_wf (q : EventQueue) (e : FastPathEvent.t) :
  queue_wf q ->
  queue_wf (fst (enqueue q e))
  /\ capacity_ (fst (enqueue q e)) = capacity_ q
  /\ Z.of_nat (length (nodes (fst (enqueue q e))))
     = Z.of_nat (length (nodes q)) + (if snd (enqueue q e) then 1 else 0).
Proof.
  intros (Hs & Hc & Hcap). unfold enqueue.
  destruct (Z.geb_spec (size_ q) (capacity_ q)) as [Hge|Hlt]; simpl.
  - repeat split; try assumption. lia.
  - rewrite length_app. simpl.
    rewrite wrap64_small by lia.
    unfold queue_wf. simpl. rewrite length_app. simpl. lia.
Qed.

Lemma dequeue_wf (q : EventQueue) :
  queue_wf q ->
  queue_wf (fst (dequeue q))
  /\ capacity_ (fst (dequeue q)) = capacity_ q
  /\ Z.of_nat (length (nodes (fst (dequeue q))))
     + Z.of_nat (length (option_list (snd (dequeue q))))
     = Z.of_nat (length (nodes q)).
Proof.
  intros (Hs & Hc & Hcap). unfold dequeue.
  destruct (nodes q) as [|e next] eqn:Hn; simpl.
  - rewrite Hn. unfold queue_wf. rewrite Hn. simpl in *. lia.
  - simpl in Hs. unfold queue_wf. simpl.
    rewrite wrap64_small by lia. lia.
Qed.

Lemma run_queue_wf (ops : list queue_op) (q : EventQueue) :
  queue_wf q ->
  queue_wf (run_queue q ops) /\ capacity_ (run_queue q ops) = capacity_ q.
Proof.
  unfold run_queue. revert q.
  induction ops as [|op ops IH]; intros q Hq; simpl.
  - split; [exact Hq | reflexivity].
  - assert (Hstep : queue_wf (queue_step q op)
                    /\ capacity_ (queue_step q op) = capacity_ q).
    { destruct op as [e|]; simpl.
      - destruct (enqueue_wf q e Hq) as (? & ? & _). split; assumption.
      - destruct (dequeue_wf q Hq) as (? & ? & _). split; assumption. }
    destruct Hstep as [Hwf Hcap].
    destruct (IH _ Hwf) as [Hwf' Hcap']. split; [exact Hwf' | congruence].
Qed.

(** ** The fast-path handler *)

(** What one call of [handlePageFault] does to the queue and to the two
    counters; every other field is left as it is. *)
Lemma handlePageFault_step (c : WatcherCoreImpl) (q : EventQueue)
  (msg : uffd_msg) (env : FaultEnv) :
  event_queue_ c = Some q ->
  exists c',
    handlePageFault c msg env = Some c'
    /\ event_queue_ c' = Some (fst (enqueue q (make_event msg env)))
    /\ events_received_ c'
       = (if snd (enqueue q (make_event msg env))
          then wrap64 (events_received_ c + 1) else events_received_ c)
    /\ events_dropped_ c'
       = (if snd (enqueue q (make_event msg env))
          then (if wp_failed env then wrap64 (events_dropped_ c + 1)
                else events_dropped_ c)
          else wrap64 (events_dropped_ c + 1 + (if wp_failed env then 1 else 0)))
    /\ state_ c' = state_ c
    /\ variables_ c' = variables_ c
    /\ running_ c' = running_ c
    /\ events_processed_ c' = events_processed_ c.
Proof.
  intros Hq. unfold handlePageFault, wp_failed. rewrite Hq.
  destruct (enqueue q (make_event msg env)) as [q' ok]. simpl.
  destruct ok;
    destruct (unprotect_ret env <? 0); [| destruct (reprotect_ret env <? 0) | |
    destruct (reprotect_ret env <? 0)];
    eexists; (split; [reflexivity|]); simpl;
    rewrite ?wrap64_add_l, ?Z.add_0_r; repeat split; reflexivity.
Qed.

Lemma records_nonneg (ops : list pipeline_op) : 0 <= records ops.
Proof. induction ops as [|[m e|] ops IH]; simpl; lia. Qed.

Lemma wp_failures_bound (ops : list pipeline_op) :
  0 <= wp_failures ops <= records ops.
Proof.
  induction ops as [|[m e|] ops IH]; simpl; try lia.
  destruct (wp_failed e); lia.
Qed.

Lemma handlePageFault_wf (c : WatcherCoreImpl) (msg : uffd_msg)
  (env : FaultEnv) :
  core_wf c ->
  exists c' (enq drops : Z),
    handlePageFault c msg env = Some c' /\ core_wf c'
    /\ 0 <= enq <= 1 /\ 0 <= drops
    /\ enq + drops = 1 + (if wp_failed env then 1 else 0)
    /\ events_received_ c' = wrap64 (events_received_ c + enq)
    /\ events_dropped_ c' = wrap64 (events_dropped_ c + drops)
    /\ (forall q q', event_queue_ c = Some q -> event_queue_ c' = Some q' ->
        Z.of_nat (length (nodes q')) = Z.of_nat (length (nodes q)) + enq).
Proof.
  intros ((q & Hq & Hwf) & Hr & Hd).
  destruct (handlePageFault_step c q msg env Hq)
    as (c' & Hc' & Hq' & Hr' & Hd' & _).
  destruct (enqueue_wf q (make_event msg env) Hwf) as (Hwf' & _ & Hlen).
  exists c'.
  destruct (snd (enqueue q (make_event msg env))) eqn:Hok.
  - exists 1, (if wp_failed env then 1 else 0).
    split; [exact Hc'|]. split.
    { split; [eauto|]. rewrite Hr', Hd'. split; [apply wrap64_range|].
      destruct (wp_failed env); [apply wrap64_range | exact Hd]. }
    split; [lia|]. split; [destruct (wp_failed env); lia|].
    split; [reflexivity|]. split; [exact Hr'|]. split.
    { rewrite Hd'. destruct (wp_failed env); [reflexivity|].
      rewrite Z.add_0_r. symmetry. apply wrap64_small. exact Hd. }
    intros q0 q0' E0 E0'. rewrite Hq in E0. rewrite Hq' in E0'.
    injection E0 as <-. injection E0' as <-. exact Hlen.
  - exists 0, (1 + (if wp_failed env then 1 else 0)).
    split; [exact Hc'|]. split.
    { split; [eauto|]. rewrite Hr', Hd'. split; [exact Hr|].
      apply wrap64_range. }
    split; [lia|]. split; [destruct (wp_failed env); lia|].
    split; [lia|]. split.
    { rewrite Hr', Z.add_0_r. symmetry. apply wrap64_small. exact Hr. }
    split; [rewrite Hd'; f_equal; lia|].
    intros q0 q0' E0 E0'. rewrite Hq in E0. rewrite Hq' in E0'.
    injection E0 as <-. injection E0' as <-. exact Hlen.
Qed.

Lemma consume_wf (c : WatcherCoreImpl) :
  core_wf c ->
  exists c' e,
    consume c = Some (c', e) /\ core_wf c'
    /\ events_received_ c' = events_received_ c
    /\ events_dropped_ c' = events_dropped_ c
    /\ (forall q q', event_queue_ c = Some q -> event_queue_ c' = Some q' ->
        Z.of_nat (length (nodes q')) + Z.of_nat (length (option_list e))
        = Z.of_nat (length (nodes q))).
Proof.
  intros ((q & Hq & Hwf) & Hr & Hd).
  destruct (dequeue_wf q Hwf) as (Hwf' & _ & Hlen).
  unfold consume. rewrite Hq.
  destruct (dequeue q) as [q' e] eqn:Hdq. simpl in *.
  eexists _, e. split; [reflexivity|]. split.
  { split; [exists q'; split; [reflexivity | exact Hwf']|]. split; assumption. }
  split; [reflexivity|]. split; [reflexivity|].
  intros q0 q0' E0 E0'. simpl in E0'.
  injection E0 as <-. injection E0' as <-. exact Hlen.
Qed.

(** The accounting of a whole run: [enq] records were enqueued and the
    drop counter was raised [drops] times. *)
Lemma run_pipeline_accounting (ops : list pipeline_op) :
  forall c, core_wf c ->
  exists c' out (enq drops : Z),
    run_pipeline c ops = Some (c', out) /\ core_wf c'
    /\ 0 <= enq <= records ops /\ 0 <= drops
    /\ enq + drops = records ops + wp_failures ops
    /\ events_received_ c' = wrap64 (events_received_ c + enq)
    /\ events_dropped_ c' = wrap64 (events_dropped_ c + drops)
    /\ (forall q q', event_queue_ c = Some q -> event_queue_ c' = Some q' ->
        Z.of_nat (length (nodes q')) + Z.of_nat (length out)
        = Z.of_nat (length (nodes q)) + enq).
Proof.
  induction ops as [|[msg env|] ops IH]; intros c Hwf.
  - exists c, [], 0, 0. simpl. destruct Hwf as (Hq & Hr & Hd).
    split; [reflexivity|]. split; [split; [exact Hq | split; assumption]|].
    split; [lia|]. split; [lia|]. split; [lia|].
    rewrite !Z.add_0_r, !wrap64_small by assumption.
    split; [reflexivity|]. split; [reflexivity|].
    intros q q' E E'. rewrite E in E'. injection E' as <-. lia.
  - destruct (handlePageFault_wf c msg env Hwf)
      as (c1 & e1 & d1 & H1 & Hwf1 & He1 & Hd1 & Hsum1 & Hr1 & Hdr1 & Hlen1).
    destruct (IH c1 Hwf1)
      as (c' & out & e2 & d2 & H2 & Hwf' & He2 & Hd2 & Hsum2 & Hr2 & Hdr2 & Hlen2).
    exists c', out, (e1 + e2), (d1 + d2). simpl. rewrite H1.
    split; [exact H2|]. split; [exact Hwf'|].
    split; [lia|]. split; [lia|]. split; [lia|].
    split; [rewrite Hr2, Hr1, wrap64_add_l; f_equal; lia|].
    split; [rewrite Hdr2, Hdr1, wrap64_add_l; f_equal; lia|].
    intros q q' E E'.
    destruct Hwf1 as ((q1 & E1 & _) & _).
    specialize (Hlen1 q q1 E E1). specialize (Hlen2 q1 q' E1 E'). lia.
  - destruct (consume_wf c Hwf) as (c1 & e & H1 & Hwf1 & Hr1 & Hdr1 & Hlen1).
    destruct (IH c1 Hwf1)
      as (c' & out & e2 & d2 & H2 & Hwf' & He2 & Hd2 & Hsum2 & Hr2 & Hdr2 & Hlen2).
    exists c', (option_list e ++ out), e2, d2. simpl. rewrite H1, H2.
    split; [reflexivity|]. split; [exact Hwf'|].
    split; [lia|]. split; [lia|]. split; [lia|].
    split; [rewrite Hr2, Hr1; reflexivity|].
    split; [rewrite Hdr2, Hdr1; reflexivity|].
    intros q q' E E'.
    destruct Hwf1 as ((q1 & E1 & _) & _).
    specialize (Hlen1 q q1 E E1). specialize (Hlen2 q1 q' E1 E').
    rewrite length_app. lia.
Qed.

Lemma slowPathLoop_id (c : WatcherCoreImpl) (n : nat) : slowPathLoop c n = c.
Proof.
  induction n as [|n IH]; simpl; [reflexivity|].
  destruct (running_ c); [exact IH | reflexivity].
Qed.

(** C3 (as amended): on a core whose queue is fresh and whose counters
    are zero, every run of fault records and take-outs goes through, and
    afterwards [events_received + events_dropped] is the number of fault
    records plus the number of records at which a write-protect ioctl
    failed (so it is the number of records when no ioctl fails),
    [events_received] is at most the number of records, and the number of
    events taken out of the queue is at most [events_received].  The
    slow-path loop itself takes nothing out. *)
Theorem pipeline_accounting (c : WatcherCoreImpl) (capacity : Z)
  (ops : list pipeline_op) :
  is_size_t capacity ->
  event_queue_ c = Some (EventQueue_new capacity) ->
  events_received_ c = 0 ->
  events_dropped_ c = 0 ->
  2 * records ops < 2 ^ 64 ->
  exists c' out,
    run_pipeline c ops = Some (c', out)
    /\ events_received_ c' + events_dropped_ c'
       = records ops + wp_failures ops
    /\ (wp_failures ops = 0 ->
        events_received_ c' + events_dropped_ c' = records ops)
    /\ events_received_ c' <= records ops
    /\ Z.of_nat (length out) <= events_received_ c'
    /\ forall n, slowPathLoop c' n = c'.
Proof.
  intros Hcap Hq Hr Hd Hbound.
  assert (Hwf : core_wf c).
  { split; [exists (EventQueue_new capacity); split;
             [exact Hq | apply queue_wf_new; exact Hcap]|].
    rewrite Hr, Hd. unfold is_size_t. lia. }
  destruct (run_pipeline_accounting ops c Hwf)
    as (c' & out & enq & drops & Hrun & Hwf' & Henq & Hdrops & Hsum
        & Hr' & Hd' & Hlen).
  pose proof (wp_failures_bound ops) as Hf.
  rewrite Hr in Hr'. rewrite Hd in Hd'. simpl in Hr', Hd'.
  rewrite wrap64_small in Hr' by lia. rewrite wrap64_small in Hd' by lia.
  exists c', out. split; [exact Hrun|].
  split; [lia|]. split; [lia|]. split; [lia|].
  split; [|intros n; apply slowPathLoop_id].
  destruct Hwf' as ((q' & Hq' & _) & _).
  specialize (Hlen _ _ Hq Hq'). simpl in Hlen. lia.
Qed.

Lemma pipeline_accounting_witness :
  exists c' out,
    run_pipeline core_running run_three = Some (c', out)
    /\ events_received_ c' + events_dropped_ c' = 2 + 1
    /\ Z.of_nat (length out) <= events_received_ c'.
Proof.
  destruct (pipeline_accounting core_running 16 run_three)
    as (c' & out & Hrun & Hsum & _ & _ & Hout & _).
  - unfold is_size_t. lia.
  - reflexivity.
  - reflexivity.
  - reflexivity.
  - vm_compute. reflexivity.
  - exists c', out. split; [exact Hrun|]. split; [exact Hsum | exact Hout].
Defined.

(** C3 (counterexample): one fault record whose first write-protect ioctl
    fails is enqueued and counted as received, and it is counted as
    dropped as well: the two counters add up to 2 for 1 record. *)
Lemma fault_counted_twice :
  records [Fault fault_at_128 fault_unprotect_fails] = 1
  /\ getMetrics ∘ fst
       <$> run_pipeline core_running [Fault fault_at_128 fault_unprotect_fails]
     = Some (mkMetrics 1 0 1 0 1)
  /\ 1 + 1 <> records [Fault fault_at_128 fault_unprotect_fails].
Proof.
  split; [reflexivity|]. split; [vm_compute; reflexivity|].
  simpl. lia.
Qed.

(** Scenario S4 of the specification: capacity 2 and five fault records
    before anything is taken out. *)
Example scenario_queue_full :
  getMetrics ∘ fst <$> run_pipeline core_running_cap2 run_five_faults
  = Some (mkMetrics 2 0 3 0 2).
Proof. vm_compute. reflexivity. Qed.

(** C4: whatever enqueues and dequeues are made on a queue created with
    a given capacity, its depth is between 0 and that capacity, after the
    run and after each of its prefixes.  When the depth equals the
    capacity, [enqueue] returns false and leaves the queue as it is, and
    the handler that made the attempt raises [events_dropped] (once for
    the rejected event, and once more if a write-protect ioctl of that
    fault fails) while [events_received] stays. *)
Theorem queue_bound (capacity : Z) (ops : list queue_op) :
  is_size_t capacity ->
  (forall k : nat,
     0 <= size (run_queue (EventQueue_new capacity) (take k ops)) <= capacity)
  /\ 0 <= size (run_queue (EventQueue_new capacity) ops) <= capacity
  /\ (size (run_queue (EventQueue_new capacity) ops) = capacity ->
      (forall e,
         enqueue (run_queue (EventQueue_new capacity) ops) e
         = (run_queue (EventQueue_new capacity) ops, false))
      /\ forall c msg env,
           event_queue_ c = Some (run_queue (EventQueue_new capacity) ops) ->
           exists c',
             handlePageFault c msg env = Some c'
             /\ event_queue_ c' = event_queue_ c
             /\ events_received_ c' = events_received_ c
             /\ events_dropped_ c'
                = wrap64 (events_dropped_ c + 1
                          + (if wp_failed env then 1 else 0))).
Proof.
  intros Hcap.
  assert (Hall : forall l,
             0 <= size (run_queue (EventQueue_new capacity) l) <= capacity).
  { intros l.
    destruct (run_queue_wf l _ (queue_wf_new capacity Hcap))
      as ((Hs & Hle & _) & Hc).
    simpl in Hc. unfold size. lia. }
  split; [intros k; apply Hall|]. split; [apply Hall|].
  intros Hfull.
  destruct (run_queue_wf ops _ (queue_wf_new capacity Hcap)) as (_ & Hc).
  simpl in Hc.
  assert (Hrej : forall e,
             enqueue (run_queue (EventQueue_new capacity) ops) e
             = (run_queue (EventQueue_new capacity) ops, false)).
  { intros e. apply enqueue_full. lia. }
  split; [exact Hrej|].
  intros c msg env Hq.
  destruct (handlePageFault_step c _ msg env Hq)
    as (c' & Hc' & Hq' & Hr' & Hd' & _).
  rewrite Hrej in Hq', Hr', Hd'. simpl in Hq', Hr', Hd'.
  exists c'. split; [exact Hc'|]. split; [congruence|].
  split; [exact Hr' | exact Hd'].
Qed.

Lemma queue_bound_witness :
  0 <= size (run_queue (EventQueue_new 2)
               [Enqueue (make_event fault_at_128 fault_ok);
                Enqueue (make_event fault_at_128 fault_ok);
                Dequeue;
                Enqueue (make_event fault_at_128 fault_ok)]) <= 2
  /\ enqueue (run_queue (EventQueue_new 2)
                [Enqueue (make_event fault_at_128 fault_ok);
                 Enqueue (make_event fault_at_128 fault_ok);
                 Dequeue;
                 Enqueue (make_event fault_at_128 fault_ok)])
       (make_event fault_at_128 fault_unprotect_fails)
     = (run_queue (EventQueue_new 2)
          [Enqueue (make_event fault_at_128 fault_ok);
           Enqueue (make_event fault_at_128 fault_ok);
           Dequeue;
           Enqueue (make_event fault_at_128 fault_ok)], false).
Proof.
  assert (Hcap : is_size_t 2) by (unfold is_size_t; lia).
  destruct (queue_bound 2
              [Enqueue (make_event fault_at_128 fault_ok);
               Enqueue (make_event fault_at_128 fault_ok);
               Dequeue;
               Enqueue (make_event fault_at_128 fault_ok)] Hcap)
    as (_ & Hb & Hfull).
  split; [exact Hb|].
  apply Hfull. vm_compute. reflexivity.
Defined.

(** ** The handler and the lifecycle state *)

Lemma handlePageFault_state (s : State) (c : WatcherCoreImpl) (msg : uffd_msg)
  (env : FaultEnv) :
  handlePageFault (set_state_ s c) msg env
  = set_state_ s <$> handlePageFault c msg env.
Proof.
  unfold handlePageFault. simpl.
  destruct (event_queue_ c) as [q|]; [|reflexivity].
  destruct (enqueue q (make_event msg env)) as [q' ok].
  destruct ok, (unprotect_ret env <? 0), (reprotect_ret env <? 0);
    reflexivity.
Qed.

Lemma handle_msgs_state (s : State) (ms : list (uffd_msg * FaultEnv)) :
  forall c,
    handle_msgs (set_state_ s c) ms = set_state_ s <$> handle_msgs c ms.
Proof.
  induction ms as [|[m e] ms IH]; intros c; simpl; [reflexivity|].
  destruct (Z.land (event m) UFFD_EVENT_PAGEFAULT =? 0); [apply IH|].
  rewrite handlePageFault_state.
  destruct (handlePageFault c m e) as [c'|]; simpl; [apply IH | reflexivity].
Qed.

Lemma handlerLoop_state (s : State) (rounds : list PollEnv) :
  forall c,
    handlerLoop (set_state_ s c) rounds = set_state_ s <$> handlerLoop c rounds.
Proof.
  induction rounds as [|env rounds IH]; intros c; simpl; [reflexivity|].
  destruct (running_ c); [|reflexivity].
  unfold handlerLoop_body.
  destruct (poll_ret env <=? 0); [apply IH|].
  destruct (nread env <=? 0); [apply IH|].
  rewrite handle_msgs_state.
  destruct (handle_msgs c _) as [c'|]; simpl; [apply IH | reflexivity].
Qed.

(** C2 (as amended): the handler never reads the lifecycle state.  A run
    of the handler loop, and a single [handlePageFault], on a core in any
    state [s] (PAUSED among them) is the run on the same core in any
    other state, with [s] put back.  So in PAUSED a fault record is
    treated as in RUNNING: with room in the queue its event is enqueued
    and [events_received] is raised; with the queue full it is counted in
    [events_dropped], the counter of queue-full drops. *)
Theorem handler_same_when_paused (c : WatcherCoreImpl) (s : State)
  (rounds : list PollEnv) (msg : uffd_msg) (env : FaultEnv) :
  handlerLoop (set_state_ s c) rounds = set_state_ s <$> handlerLoop c rounds
  /\ handlePageFault (set_state_ s c) msg env
     = set_state_ s <$> handlePageFault c msg env
  /\ (forall q, state_ c = PAUSED -> event_queue_ c = Some q ->
      size q < capacity_ q ->
      exists c',
        handlePageFault c msg env = Some c'
        /\ state_ c' = PAUSED
        /\ nodes <$> event_queue_ c' = Some (nodes q ++ [make_event msg env])
        /\ events_received_ c' = wrap64 (events_received_ c + 1))
  /\ (forall q, state_ c = PAUSED -> event_queue_ c = Some q ->
      capacity_ q <= size q ->
      exists c',
        handlePageFault c msg env = Some c'
        /\ state_ c' = PAUSED
        /\ event_queue_ c' = Some q
        /\ events_received_ c' = events_received_ c
        /\ events_dropped_ c'
           = wrap64 (events_dropped_ c + 1 + (if wp_failed env then 1 else 0))).
Proof.
  split; [apply handlerLoop_state|]. split; [apply handlePageFault_state|].
  split; intros q Hs Hq Hsz;
    destruct (handlePageFault_step c q msg env Hq)
      as (c' & Hc' & Hq' & Hr' & Hd' & Hs' & _);
    exists c'; (split; [exact Hc'|]); (split; [congruence|]).
  - rewrite (enqueue_room q _ Hsz) in Hq', Hr'. simpl in Hq', Hr'.
    rewrite Hq'. split; [reflexivity | exact Hr'].
  - rewrite (enqueue_full q _ Hsz) in Hq', Hr', Hd'. simpl in Hq', Hr', Hd'.
    split; [exact Hq'|]. split; [exact Hr' | exact Hd'].
Qed.

Lemma handler_same_when_paused_witness :
  state_ core_paused = PAUSED
  /\ exists c',
       handlePageFault core_paused fault_at_128 fault_ok = Some c'
       /\ state_ c' = PAUSED
       /\ nodes <$> event_queue_ c' = Some [make_event fault_at_128 fault_ok]
       /\ events_received_ c' = 1.
Proof.
  split; [reflexivity|].
  destruct (handler_same_when_paused core_paused PAUSED [] fault_at_128 fault_ok)
    as (_ & _ & H & _).
  destruct (H (EventQueue_new 16)) as (c' & H1 & H2 & H3 & H4).
  - reflexivity.
  - reflexivity.
  - vm_compute. reflexivity.
  - exists c'. split; [exact H1|]. split; [exact H2|].
    split; [exact H3 | exact H4].
Defined.

(** C2 (counterexample): the core is PAUSED with an empty queue and zero
    counters; one round of the handler loop that reads one fault record
    leaves the state PAUSED, the event in the queue ([queue_depth] 1),
    [events_received] 1 and [events_dropped] 0. *)
Lemma paused_handler_enqueues :
  getState core_paused = PAUSED
  /\ getMetrics core_paused = mkMetrics 0 0 0 0 0
  /\ getState <$> handlerLoop core_paused [round_one_fault] = Some PAUSED
  /\ getMetrics <$> handlerLoop core_paused [round_one_fault]
     = Some (mkMetrics 1 0 0 0 1)
  /\ (fun c => nodes <$> event_queue_ c)
       <$> handlerLoop core_paused [round_one_fault]
     = Some (Some [make_event fault_at_128 fault_ok]).
Proof. repeat split; vm_compute; reflexivity. Qed.

(** ** Fault delivery *)

(** Masking with [~(PAGE_SIZE - 1)] rounds a 64-bit address down to a
    multiple of the page size. *)
Lemma page_base_of_round_down (addr : Z) :
  is_size_t addr -> page_base_of addr = PAGE_SIZE * (addr / PAGE_SIZE).
Proof.
  intros [H0 H1]. unfold page_base_of, PAGE_SIZE.
  replace (wrap64 (Z.lnot (4096 - 1)))
    with (Z.land (Z.ones 64) (Z.lnot (Z.ones 12))) by reflexivity.
  rewrite Z.land_assoc, Z.land_ones by lia.
  rewrite Z.mod_small by lia.
  change (Z.land addr (Z.lnot (Z.ones 12))) with (Z.ldiff addr (Z.ones 12)).
  rewrite Z.ldiff_ones_r by lia.
  rewrite Z.shiftl_mul_pow2, Z.shiftr_div_pow2 by lia.
  change (2 ^ 12) with 4096. lia.
Qed.

Lemma page_base_of_offset (base off : Z) :
  is_size_t base -> base mod PAGE_SIZE = 0 -> 0 <= off < PAGE_SIZE ->
  base + off < 2 ^ 64 ->
  page_base_of (base + off) = base.
Proof.
  intros Hb Ha Ho Hlt. unfold is_size_t in Hb.
  rewrite page_base_of_round_down by (unfold is_size_t; lia).
  unfold PAGE_SIZE in *.
  pose proof (Z.div_mod base 4096 ltac:(lia)) as Hdm. rewrite Ha in Hdm.
  replace (base + off) with (off + (base / 4096) * 4096) by lia.
  rewrite Z.div_add by lia. rewrite (Z.div_small off) by lia. lia.
Qed.

(** C1 (counterexample): the core is RUNNING with one registered page of
    4096 zero bytes; the handler round for the write at offset 128 goes
    through; yet no number of slow-path rounds makes [dequeueEvent]
    return an event. *)
Lemma no_enriched_event :
  getState core_running = RUNNING
  /\ dom (variables_ core_running) = {[registered_id]}
  /\ readSnapshot core_running registered_id = replicate 4096 Byte.x00
  /\ is_Some (handlerLoop core_running [round_one_fault])
  /\ ~ (exists c' n ev,
          handlerLoop core_running [round_one_fault] = Some c'
          /\ snd (dequeueEvent (slowPathLoop c' n)) = Some ev).
Proof.
  split; [reflexivity|]. split; [vm_compute; reflexivity|].
  split; [vm_compute; reflexivity|]. split; [vm_compute; eauto|].
  intros (c' & n & ev & _ & H). simpl in H. discriminate.
Qed.

(** ** The scenarios of the specification on the model *)

(** [initialize] on a fresh object always creates the queue with the
    capacity it is given, whatever the system calls return. *)
Lemma initialize_creates_queue (c : WatcherCoreImpl) (dir : string)
  (max_queue_size : Z) (env : InitEnv) :
  state_ c = UNINITIALIZED ->
  event_queue_ (fst (initialize c dir max_queue_size env))
  = Some (EventQueue_new max_queue_size).
Proof.
  intros Hs. unfold initialize. rewrite Hs. simpl.
  destruct (userfaultfd_ret env <? 0); [reflexivity|].
  destruct (uffdio_api_ret env <? 0); reflexivity.
Qed.

(** S1: initialize, start, stop. *)
Example scenario_lifecycle :
  snd (initialize WatcherCoreImpl_new "/tmp/x" 16 init_ok) = true
  /\ getState core_initialized = INITIALIZED
  /\ snd (start core_initialized) = true
  /\ getState (fst (start core_initialized)) = RUNNING
  /\ stop (fst (start core_initialized)) 5000
     = (set_threads false false
          (set_state_ STOPPED (set_running_ false (fst (start core_initialized)))),
        true)
  /\ getState (fst (stop (fst (start core_initialized)) 5000)) = STOPPED.
Proof. repeat split. Qed.

(** S2: register a page of zeros, read, write 4096 bytes of 0x41, read,
    unregister. *)
Example scenario_round_trip :
  take 4 (readSnapshot core_registered registered_id)
  = [Byte.x00; Byte.x00; Byte.x00; Byte.x00]
  /\ snd (writeSnapshot core_registered registered_id (replicate 4096 Byte.x41))
     = true
  /\ head (readSnapshot
             (fst (writeSnapshot core_registered registered_id
                     (replicate 4096 Byte.x41))) registered_id)
     = Some Byte.x41
  /\ snd (unregisterPage
            (fst (writeSnapshot core_registered registered_id
                    (replicate 4096 Byte.x41))) registered_id) = true.
Proof. repeat split; vm_compute; reflexivity. Qed.

(** S5: an unknown id. *)
Example scenario_unknown_id :
  snd (unregisterPage core_registered "no-such") = false
  /\ readSnapshot core_registered "no-such" = [].
Proof. split; vm_compute; reflexivity. Qed.

(** * Further properties of the code *)

(** ** Order and drop policy of the queue *)

Lemma enqueue_all_wf (es : list FastPathEvent.t) :
  forall q, queue_wf q ->
    queue_wf (fst (enqueue_all q es))
    /\ capacity_ (fst (enqueue_all q es)) = capacity_ q
    /\ nodes (fst (enqueue_all q es))
       = nodes q ++ take (Z.to_nat (capacity_ q - size q)) es
    /\ snd (enqueue_all q es)
       = replicate (Nat.min (Z.to_nat (capacity_ q - size q)) (length es)) true
         ++ replicate (length es - Z.to_nat (capacity_ q - size q)) false.
Proof.
  induction es as [|e es IH]; intros q Hwf.
  - simpl. rewrite take_nil, app_nil_r, Nat.min_0_r. simpl. auto.
  - cbn [enqueue_all].
    destruct (Z_lt_le_dec (size q) (capacity_ q)) as [Hroom|Hfull].
    + rewrite (enqueue_room q e Hroom).
      destruct (enqueue_wf q e Hwf) as (Hwf1 & _ & _).
      rewrite (enqueue_room q e Hroom) in Hwf1. simpl in Hwf1.
      specialize (IH _ Hwf1).
      destruct (enqueue_all _ es) as [q2 oks]. simpl in IH |- *.
      destruct IH as (Hwf2 & Hc2 & Hn2 & Ho2).
      destruct Hwf as (Hs & Hle & Hcap). unfold size in *.
      rewrite wrap64_small in Hn2, Ho2 by lia.
      replace (Z.to_nat (capacity_ q - size_ q))
        with (S (Z.to_nat (capacity_ q - (size_ q + 1)))) by lia.
      simpl. rewrite Hn2, Ho2, <- app_assoc. simpl. auto.
    + rewrite (enqueue_full q e Hfull).
      specialize (IH _ Hwf).
      destruct (enqueue_all q es) as [q2 oks]. simpl in IH |- *.
      destruct IH as (Hwf2 & Hc2 & Hn2 & Ho2).
      replace (Z.to_nat (capacity_ q - size q)) with O in * by lia.
      simpl in *. rewrite Nat.sub_0_r in Ho2. rewrite Hn2, Ho2. auto.
Qed.

Lemma dequeue_n_wf (n : nat) :
  forall q, queue_wf q ->
    queue_wf (fst (dequeue_n q n))
    /\ capacity_ (fst (dequeue_n q n)) = capacity_ q
    /\ nodes (fst (dequeue_n q n)) = drop n (nodes q)
    /\ snd (dequeue_n q n) = take n (nodes q).
Proof.
  induction n as [|n IH]; intros q Hwf.
  - simpl. rewrite drop_0. auto.
  - cbn [dequeue_n].
    destruct (dequeue_wf q Hwf) as (Hwf1 & Hc1 & _).
    specialize (IH _ Hwf1). unfold dequeue in *.
    destruct (nodes q) as [|e next] eqn:Hn; simpl in *.
    + destruct (dequeue_n q n) as [q2 out]. simpl in *.
      destruct IH as (Hwf2 & Hc2 & Hn2 & Ho2).
      rewrite Hn in Hn2, Ho2. rewrite drop_nil in Hn2. rewrite take_nil in Ho2.
      auto.
    + destruct (dequeue_n _ n) as [q2 out]. simpl in *.
      destruct IH as (Hwf2 & Hc2 & Hn2 & Ho2). rewrite Ho2. auto.
Qed.

(** X1: when a list of events is offered to a well-formed queue, the
    first [capacity - depth] of them are accepted and appended in order
    behind the events already queued, and every later one is rejected;
    nothing queued is overwritten. *)
Theorem queue_tail_drop (q : EventQueue) (es : list FastPathEvent.t) :
  queue_wf q ->
  nodes (fst (enqueue_all q es))
  = nodes q ++ take (Z.to_nat (capacity_ q - size q)) es
  /\ snd (enqueue_all q es)
     = replicate (Nat.min (Z.to_nat (capacity_ q - size q)) (length es)) true
       ++ replicate (length es - Z.to_nat (capacity_ q - size q)) false
  /\ size (fst (enqueue_all q es))
     = Z.min (capacity_ q) (size q + Z.of_nat (length es)).
Proof.
  intros Hwf.
  destruct (enqueue_all_wf es q Hwf) as (Hwf' & Hc & Hn & Ho).
  split; [exact Hn|]. split; [exact Ho|].
  destruct Hwf' as (Hs' & _). destruct Hwf as (Hs & Hle & _).
  unfold size in *. rewrite Hs', Hn, length_app, length_take. lia.
Qed.

Lemma queue_tail_drop_witness :
  nodes (fst (enqueue_all (EventQueue_new 2)
                [make_event fault_at_128 fault_ok;
                 make_event fault_at_128 fault_unprotect_fails;
                 make_event fault_at_128 fault_ok]))
  = [make_event fault_at_128 fault_ok;
     make_event fault_at_128 fault_unprotect_fails]
  /\ snd (enqueue_all (EventQueue_new 2)
            [make_event fault_at_128 fault_ok;
             make_event fault_at_128 fault_unprotect_fails;
             make_event fault_at_128 fault_ok])
     = [true; true; false].
Proof.
  assert (Hwf : queue_wf (EventQueue_new 2))
    by (apply queue_wf_new; unfold is_size_t; lia).
  destruct (queue_tail_drop (EventQueue_new 2)
              [make_event fault_at_128 fault_ok;
               make_event fault_at_128 fault_unprotect_fails;
               make_event fault_at_128 fault_ok] Hwf) as (Hn & Ho & _).
  split; [exact Hn | exact Ho].
Defined.

(** X2: the queue is first-in first-out.  [n] calls of [dequeue] on a
    well-formed queue return its [n] oldest events, oldest first (all of
    them, and then nothing, when it holds fewer than [n]), and leave the
    remaining events in their order with the depth counted down
    accordingly. *)
Theorem queue_fifo (q : EventQueue) (n : nat) :
  queue_wf q ->
  snd (dequeue_n q n) = take n (nodes q)
  /\ nodes (fst (dequeue_n q n)) = drop n (nodes q)
  /\ size (fst (dequeue_n q n)) = Z.max 0 (size q - Z.of_nat n)
  /\ capacity_ (fst (dequeue_n q n)) = capacity_ q.
Proof.
  intros Hwf.
  destruct (dequeue_n_wf n q Hwf) as (Hwf' & Hc & Hn & Ho).
  split; [exact Ho|]. split; [exact Hn|]. split; [|exact Hc].
  destruct Hwf' as (Hs' & _). destruct Hwf as (Hs & _).
  unfold size. rewrite Hs', Hn, length_drop, Hs. lia.
Qed.

Lemma queue_fifo_witness :
  snd (dequeue_n
         (fst (enqueue_all (EventQueue_new 2)
                 [make_event fault_at_128 fault_ok;
                  make_event fault_at_128 fault_unprotect_fails])) 3)
  = [make_event fault_at_128 fault_ok;
     make_event fault_at_128 fault_unprotect_fails].
Proof.
  assert (Hwf : queue_wf (EventQueue_new 2))
    by (apply queue_wf_new; unfold is_size_t; lia).
  destruct (enqueue_all_wf
              [make_event fault_at_128 fault_ok;
               make_event fault_at_128 fault_unprotect_fails]
              (EventQueue_new 2) Hwf) as (Hwf' & _).
  destruct (queue_fifo _ 3 Hwf') as (Ho & _).
  rewrite Ho. reflexivity.
Defined.

(** ** The handler loop *)

(** A handled fault changes the queue and the two fault counters and
    nothing else. *)
Lemma handlePageFault_shape (c c' : WatcherCoreImpl) (msg : uffd_msg)
  (env : FaultEnv) :
  handlePageFault c msg env = Some c' ->
  exists q r d,
    c' = set_events_dropped_ d (set_events_received_ r (set_event_queue_ q c)).
Proof.
  unfold handlePageFault, drop_one, receive_one.
  destruct c as [s m o [q|] v u h sl rn er ep ed cn]; simpl; [|discriminate].
  destruct (enqueue q (make_event msg env)) as [q' ok].
  destruct ok, (unprotect_ret env <? 0), (reprotect_ret env <? 0);
    simpl; intros [= <-]; exists (Some q'); do 2 eexists;
    unfold set_events_dropped_, set_events_received_, set_event_queue_;
    simpl; reflexivity.
Qed.

Lemma run_pipeline_app (l1 l2 : list pipeline_op) :
  forall c,
    run_pipeline c (l1 ++ l2)
    = match run_pipeline c l1 with
      | None => None
      | Some (c1, o1) =>
          match run_pipeline c1 l2 with
          | None => None
          | Some (c2, o2) => Some (c2, o1 ++ o2)
          end
      end.
Proof.
  induction l1 as [|[msg env|] l1 IH]; intros c; simpl.
  - destruct (run_pipeline c l2) as [[c2 o2]|]; reflexivity.
  - destruct (handlePageFault c msg env) as [c1|]; [apply IH | reflexivity].
  - destruct (consume c) as [[c1 e]|]; [|reflexivity].
    rewrite IH. destruct (run_pipeline c1 l1) as [[c2 o1]|]; [|reflexivity].
    destruct (run_pipeline c2 l2) as [[c3 o2]|]; [|reflexivity].
    rewrite app_assoc. reflexivity.
Qed.

Lemma run_pipeline_frame (ops : list pipeline_op) :
  forall c c' out,
    run_pipeline c ops = Some (c', out) ->
    exists q r d,
      c' = set_events_dropped_ d (set_events_received_ r (set_event_queue_ q c)).
Proof.
  induction ops as [|[msg env|] ops IH]; intros c c' out H; simpl in H.
  - injection H as <- <-. destruct c. do 3 eexists. reflexivity.
  - destruct (handlePageFault c msg env) as [c1|] eqn:H1; [|discriminate].
    destruct (handlePageFault_shape _ _ _ _ H1) as (q1 & r1 & d1 & ->).
    destruct (IH _ _ _ H) as (q2 & r2 & d2 & ->).
    destruct c. do 3 eexists. reflexivity.
  - unfold consume in H. destruct (event_queue_ c) as [q|] eqn:Hq; [|discriminate].
    destruct (dequeue q) as [q1 e].
    destruct (run_pipeline _ ops) as [[c2 o2]|] eqn:H2; [|discriminate].
    injection H as <- <-.
    destruct (IH _ _ _ H2) as (q2 & r2 & d2 & ->).
    destruct c. do 3 eexists. reflexivity.
Qed.

Lemma handle_msgs_pipeline (ms : list (uffd_msg * FaultEnv)) :
  forall c, handle_msgs c ms = fst <$> run_pipeline c (flat_map msg_ops ms).
Proof.
  induction ms as [|[m e] ms IH]; intros c; simpl; [reflexivity|].
  unfold msg_ops at 1. simpl.
  destruct (Z.land (event m) UFFD_EVENT_PAGEFAULT =? 0); simpl; [apply IH|].
  destruct (handlePageFault c m e) as [c1|]; [apply IH | reflexivity].
Qed.

Lemma handlerLoop_body_pipeline (c : WatcherCoreImpl) (env : PollEnv) :
  handlerLoop_body c env = fst <$> run_pipeline c (round_ops env).
Proof.
  unfold handlerLoop_body, round_ops.
  destruct (poll_ret env <=? 0); [reflexivity|].
  destruct (nread env <=? 0); [reflexivity|].
  apply handle_msgs_pipeline.
Qed.

Lemma handlerLoop_pipeline (rounds : list PollEnv) :
  forall c,
    running_ c = true ->
    handlerLoop c rounds = fst <$> run_pipeline c (flat_map round_ops rounds).
Proof.
  induction rounds as [|env rounds IH]; intros c Hrun; simpl; [reflexivity|].
  rewrite Hrun, handlerLoop_body_pipeline, run_pipeline_app.
  destruct (run_pipeline c (round_ops env)) as [[c1 o1]|] eqn:H1; simpl;
    [|reflexivity].
  destruct (run_pipeline_frame _ _ _ _ H1) as (q & r & d & ->).
  rewrite IH by exact Hrun.
  destruct (run_pipeline _ (flat_map round_ops rounds)) as [[c2 o2]|];
    reflexivity.
Qed.

Lemma round_ops_bound (env : PollEnv) :
  Z.of_nat (length (round_ops env)) <= Z.max 0 (nread env / sizeof_uffd_msg)
  /\ (length (round_ops env) <= length (msgs env))%nat.
Proof.
  unfold round_ops.
  destruct (poll_ret env <=? 0); [simpl; lia|].
  destruct (nread env <=? 0); [simpl; lia|].
  assert (H : forall l : list (uffd_msg * FaultEnv),
             (length (flat_map msg_ops l) <= length l)%nat).
  { induction l as [|me l IHl]; simpl; [lia|].
    rewrite length_app. unfold msg_ops at 1.
    destruct (Z.land (event (fst me)) UFFD_EVENT_PAGEFAULT =? 0); simpl; lia. }
  pose proof (H (take (Z.to_nat (nread env / sizeof_uffd_msg)) (msgs env))) as Hl.
  rewrite length_take in Hl. lia.
Qed.

(** X3: what the handler loop handles.  With [running_] cleared it
    handles nothing.  Otherwise its rounds amount to handling, in order,
    the faults of [round_ops]: none in a round whose [poll] or [read]
    returned at most 0, and otherwise those of the first [nread / 32]
    buffer entries whose [event] field shares a bit with
    [UFFD_EVENT_PAGEFAULT]; the other entries are skipped without a
    trace. *)
Theorem handlerLoop_handles (c : WatcherCoreImpl) (rounds : list PollEnv) :
  (running_ c = false -> handlerLoop c rounds = Some c)
  /\ (running_ c = true ->
      handlerLoop c rounds
      = fst <$> run_pipeline c (flat_map round_ops rounds))
  /\ (forall env, poll_ret env <= 0 \/ nread env <= 0 -> round_ops env = [])
  /\ (forall env,
        Z.of_nat (length (round_ops env))
        <= Z.max 0 (nread env / sizeof_uffd_msg)
        /\ (length (round_ops env) <= length (msgs env))%nat)
  /\ (forall m e, Z.land (event m) UFFD_EVENT_PAGEFAULT = 0 ->
        handle_msgs c [(m, e)] = Some c).
Proof.
  split.
  { intros Hrun. destruct rounds as [|env rounds]; simpl; [reflexivity|].
    rewrite Hrun. reflexivity. }
  split; [apply handlerLoop_pipeline|].
  split.
  { intros env [H|H]; unfold round_ops.
    - destruct (Z.leb_spec (poll_ret env) 0); [reflexivity | lia].
    - destruct (poll_ret env <=? 0); [reflexivity|].
      destruct (Z.leb_spec (nread env) 0); [reflexivity | lia]. }
  split; [apply round_ops_bound|].
  intros m e H. simpl. rewrite H. reflexivity.
Qed.

Lemma handlerLoop_handles_witness :
  handlerLoop core_running [round_one_fault]
  = fst <$> run_pipeline core_running [Fault fault_at_128 fault_ok]
  /\ handlerLoop core_initialized [round_one_fault] = Some core_initialized
  /\ round_ops (mkPollEnv 0 sizeof_uffd_msg [(fault_at_128, fault_ok)]) = [].
Proof.
  destruct (handlerLoop_handles core_running [round_one_fault])
    as (_ & H1 & H2 & _).
  destruct (handlerLoop_handles core_initialized [round_one_fault])
    as (H0 & _).
  split; [exact (H1 eq_refl)|]. split; [exact (H0 eq_refl)|].
  apply H2. left. simpl. lia.
Defined.

(** With the queue present the handler loop goes through and changes only
    the queue and the two fault counters. *)
Lemma handlerLoop_total (c : WatcherCoreImpl) (rounds : list PollEnv) :
  core_wf c ->
  exists c' q r d,
    handlerLoop c rounds = Some c'
    /\ c' = set_events_dropped_ d (set_events_received_ r (set_event_queue_ q c))
    /\ core_wf c'
    /\ state_ c' = state_ c
    /\ variables_ c' = variables_ c
    /\ running_ c' = running_ c.
Proof.
  intros Hwf. destruct (running_ c) eqn:Hrun.
  - rewrite (handlerLoop_pipeline rounds c Hrun).
    destruct (run_pipeline_accounting (flat_map round_ops rounds) c Hwf)
      as (c' & out & enq & drops & H & Hwf' & _).
    rewrite H. simpl.
    destruct (run_pipeline_frame _ _ _ _ H) as (q & r & d & E).
    exists c', q, r, d. split; [reflexivity|]. split; [exact E|].
    split; [exact Hwf'|]. rewrite E. simpl. auto.
  - assert (E : handlerLoop c rounds = Some c).
    { destruct rounds; simpl; [reflexivity | rewrite Hrun; reflexivity]. }
    rewrite E. exists c, (event_queue_ c), (events_received_ c), (events_dropped_ c).
    split; [reflexivity|]. destruct c; simpl in *. auto.
Qed.

(** X4: once the queue exists and the counters are 64-bit values, the
    handler loop cannot fail, whatever it reads.  It leaves the lifecycle
    state, the registry and every field other than the queue and the two
    fault counters as they were, and keeps the queue within its
    capacity. *)
Theorem handlerLoop_safe (c : WatcherCoreImpl) (rounds : list PollEnv) :
  core_wf c ->
  exists c' q r d,
    handlerLoop c rounds = Some c'
    /\ c' = set_events_dropped_ d (set_events_received_ r (set_event_queue_ q c))
    /\ core_wf c'
    /\ state_ c' = state_ c
    /\ variables_ c' = variables_ c
    /\ running_ c' = running_ c.
Proof. exact (handlerLoop_total c rounds). Qed.

Lemma handlerLoop_safe_witness :
  exists c',
    handlerLoop core_running [round_one_fault; round_one_fault] = Some c'
    /\ state_ c' = RUNNING.
Proof.
  assert (Hwf : core_wf core_running).
  { split; [exists (EventQueue_new 16); split;
             [reflexivity | apply queue_wf_new; unfold is_size_t; lia]|].
    split; unfold is_size_t; simpl; lia. }
  destruct (handlerLoop_safe core_running [round_one_fault; round_one_fault] Hwf)
    as (c' & q & r & d & H & _ & _ & Hs & _).
  exists c'. split; [exact H | exact Hs].
Defined.

(** C1 (as amended): with the core RUNNING and one page registered (so
    that the queue exists), a write to the page produces no
    EnrichedEvent.  Whatever fault records the handler thread reads for
    it, none included, and however many rounds the slow-path loop makes,
    the handler goes through, [dequeueEvent] returns nothing and leaves
    the object as the handler left it, [events_processed] is not raised,
    and the registered pre-image is still what [readSnapshot] returns. *)
Theorem write_not_enriched (c : WatcherCoreImpl) (rounds : list PollEnv)
  (n : nat) :
  core_wf c ->
  exists c',
    handlerLoop c rounds = Some c'
    /\ dequeueEvent (slowPathLoop c' n) = (c', None)
    /\ events_processed_ (fst (dequeueEvent (slowPathLoop c' n)))
       = events_processed_ c
    /\ getState c' = getState c
    /\ forall id, readSnapshot c' id = readSnapshot c id.
Proof.
  intros Hwf.
  destruct (handlerLoop_total c rounds Hwf)
    as (c' & q & r & d & H & E & _ & Hs & Hv & _).
  exists c'. split; [exact H|].
  rewrite slowPathLoop_id. simpl.
  split; [reflexivity|]. split; [rewrite E; reflexivity|].
  split; [exact Hs|].
  intros id. unfold readSnapshot. rewrite Hv. reflexivity.
Qed.

Lemma write_not_enriched_witness :
  exists c',
    handlerLoop core_running [round_one_fault] = Some c'
    /\ dequeueEvent (slowPathLoop c' 3) = (c', None)
    /\ readSnapshot c' registered_id = readSnapshot core_running registered_id.
Proof.
  assert (Hwf : core_wf core_running).
  { split; [exists (EventQueue_new 16); split;
             [reflexivity | apply queue_wf_new; unfold is_size_t; lia]|].
    split; unfold is_size_t; simpl; lia. }
  destruct (write_not_enriched core_running [round_one_fault] 3 Hwf)
    as (c' & H1 & H2 & _ & _ & H3).
  exists c'. split; [exact H1|]. split; [exact H2 | exact (H3 registered_id)].
Defined.

(** X5: every event the handler builds from a fault record with a 64-bit
    address carries that address as its fault address and a page base
    that is a multiple of the page size, at most the fault address and
    less than one page below it. *)
Theorem make_event_page (msg : uffd_msg) (env : FaultEnv) :
  is_size_t (address msg) ->
  FastPathEvent.fault_addr (make_event msg env) = address msg
  /\ FastPathEvent.page_base (make_event msg env) mod PAGE_SIZE = 0
  /\ FastPathEvent.page_base (make_event msg env)
     <= FastPathEvent.fault_addr (make_event msg env)
     < FastPathEvent.page_base (make_event msg env) + PAGE_SIZE
  /\ 0 <= FastPathEvent.page_base (make_event msg env).
Proof.
  intros Ha. simpl. rewrite (page_base_of_round_down _ Ha).
  unfold PAGE_SIZE, is_size_t in *.
  split; [reflexivity|]. split.
  { rewrite Z.mul_comm. apply Z.mod_mul. lia. }
  pose proof (Z.div_mod (address msg) 4096 ltac:(lia)) as Hdm.
  pose proof (Z.mod_pos_bound (address msg) 4096 ltac:(lia)) as Hm.
  assert (0 <= address msg / 4096) by (apply Z.div_pos; lia).
  lia.
Qed.

Lemma make_event_page_witness :
  FastPathEvent.page_base (make_event fault_at_128 fault_ok) mod PAGE_SIZE = 0
  /\ FastPathEvent.page_base (make_event fault_at_128 fault_ok)
     <= page_addr + 128.
Proof.
  destruct (make_event_page fault_at_128 fault_ok) as (_ & H1 & H2 & _).
  - unfold is_size_t. simpl. unfold page_addr. lia.
  - split; [exact H1|]. simpl in H2. simpl. lia.
Defined.

(** ** Invariants of the whole interface *)

Lemma handlerLoop_frame (rounds : list PollEnv) (c c' : WatcherCoreImpl) :
  handlerLoop c rounds = Some c' ->
  exists q r d,
    c' = set_events_dropped_ d (set_events_received_ r (set_event_queue_ q c)).
Proof.
  intros H. destruct (running_ c) eqn:Hrun.
  - rewrite (handlerLoop_pipeline rounds c Hrun) in H.
    destruct (run_pipeline c _) as [[c1 o1]|] eqn:H1; [|discriminate].
    injection H as <-. exact (run_pipeline_frame _ _ _ _ H1).
  - assert (E : handlerLoop c rounds = Some c).
    { destruct rounds; simpl; [reflexivity | rewrite Hrun; reflexivity]. }
    rewrite E in H. injection H as <-.
    exists (event_queue_ c), (events_received_ c), (events_dropped_ c).
    destruct c. reflexivity.
Qed.

Lemma api_inv_core_wf (c : WatcherCoreImpl) :
  api_inv c -> state_ c <> UNINITIALIZED -> core_wf c.
Proof.
  intros (Hq & _ & _ & _ & _ & Hr & Hd & _) Hs.
  destruct Hq as [(Hs' & _)|(_ & Hq)]; [contradiction|].
  split; [exact Hq | split; assumption].
Qed.

Lemma api_step_inv (c : WatcherCoreImpl) (op : api_op) :
  api_inv c -> api_op_ok op ->
  exists c', api_step c op = Some c' /\ api_inv c'.
Proof.
  intros Hinv Hok.
  destruct op as [dir n env| | | |t|base len name flags depth env|id|id bytes
                 |id meta| |rounds|k]; cbn [api_step].
  - (* initialize *)
    eexists. split; [reflexivity|].
    destruct c as [s m o q v u h sl rn er ep ed cn].
    unfold api_inv in *. simpl in *. unfold initialize. simpl.
    destruct s; simpl; try exact Hinv.
    destruct Hinv as (Hq & Hrn & Hh & Hsl & Hep & Her & Hed & Hcn & _).
    destruct (Z.ltb_spec (userfaultfd_ret env) 0) as [Hu|Hu]; simpl;
      [|destruct (Z.ltb_spec (uffdio_api_ret env) 0) as [Ha|Ha]; simpl];
      (split; [right; split; [discriminate|];
               exists (EventQueue_new n); split;
               [reflexivity | apply queue_wf_new; exact Hok]|]);
      repeat (split; [assumption|]);
      (split; intros H; try discriminate; try lia;
       try (destruct H as [H|[H|[H|H]]]; try discriminate; lia)).
  - (* start *)
    eexists. split; [reflexivity|].
    destruct c as [s m o q v u h sl rn er ep ed cn].
    unfold api_inv in *. simpl in *. unfold start. simpl.
    destruct s; simpl; try exact Hinv.
    destruct Hinv as (Hq & Hrn & Hh & Hsl & Hep & Her & Hed & Hcn & He & Hu).
    split; [destruct Hq as [(?&_)|(_ & Hq)]; [discriminate|];
            right; split; [discriminate | exact Hq]|].
    repeat (split; [first [assumption | reflexivity]|]).
    split; [discriminate | intros _; apply Hu; auto].
  - (* pause *)
    eexists. split; [reflexivity|].
    destruct c as [s m o q v u h sl rn er ep ed cn].
    unfold api_inv in *. simpl in *. unfold pause. simpl.
    destruct s; simpl; try exact Hinv.
    destruct Hinv as (Hq & Hrn & Hh & Hsl & Hep & Her & Hed & Hcn & He & Hu).
    split; [destruct Hq as [(?&_)|(_ & Hq)]; [discriminate|];
            right; split; [discriminate | exact Hq]|].
    repeat (split; [first [assumption | reflexivity]|]).
    split; [discriminate | intros _; apply Hu; auto].
  - (* resume *)
    eexists. split; [reflexivity|].
    destruct c as [s m o q v u h sl rn er ep ed cn].
    unfold api_inv in *. simpl in *. unfold resume. simpl.
    destruct s; simpl; try exact Hinv.
    destruct Hinv as (Hq & Hrn & Hh & Hsl & Hep & Her & Hed & Hcn & He & Hu).
    split; [destruct Hq as [(?&_)|(_ & Hq)]; [discriminate|];
            right; split; [discriminate | exact Hq]|].
    repeat (split; [first [assumption | reflexivity]|]).
    split; [discriminate | intros _; apply Hu; auto].
  - (* stop *)
    eexists. split; [reflexivity|].
    destruct c as [s m o q v u h sl rn er ep ed cn].
    unfold api_inv in *. simpl in *. unfold stop. simpl.
    destruct s; simpl; try exact Hinv;
      destruct Hinv as (Hq & Hrn & Hh & Hsl & Hep & Her & Hed & Hcn & He & Hu);
      (split; [destruct Hq as [(?&_)|(_ & Hq)]; [discriminate|];
               right; split; [discriminate | exact Hq]|]);
      repeat (split; [first [assumption | reflexivity]|]);
      (split; [discriminate | intros _; apply Hu; auto]).
  - (* registerPage *)
    eexists. split; [reflexivity|].
    destruct c as [s m o q v u h sl rn er ep ed cn].
    unfold api_inv in *. simpl in *. unfold registerPage. simpl.
    destruct Hinv as (Hq & Hrn & Hh & Hsl & Hep & Her & Hed & Hcn & He & Hu).
    pose proof (wrap64_range (cn + 1)) as Hw.
    destruct (bool_decide (s = STOPPED) || bool_decide (s = ERROR)); simpl;
      [repeat match goal with |- _ /\ _ => split end; assumption|].
    destruct ((bool_decide (s = RUNNING) || bool_decide (s = PAUSED))
              && (uffdio_register_ret env <? 0)); simpl;
      [repeat match goal with |- _ /\ _ => split end; assumption|].
    destruct (vector_max_size <? len); simpl;
      [repeat match goal with |- _ /\ _ => split end; assumption|].
    destruct (base =? 0); simpl;
      repeat match goal with |- _ /\ _ => split end; assumption.
  - (* unregisterPage *)
    eexists. split; [reflexivity|]. unfold unregisterPage.
    destruct (variables_ c !! id); [|exact Hinv].
    destruct c. exact Hinv.
  - (* writeSnapshot *)
    eexists. split; [reflexivity|]. unfold writeSnapshot.
    destruct (variables_ c !! id); [|exact Hinv].
    destruct c. exact Hinv.
  - (* updateMetadata *)
    eexists. split; [reflexivity|]. unfold updateMetadata.
    destruct (variables_ c !! id); [|exact Hinv].
    destruct c. exact Hinv.
  - (* dequeueEvent *)
    eexists. split; [reflexivity | exact Hinv].
  - (* handler rounds *)
    destruct (State_eq_dec (state_ c) UNINITIALIZED) as [Hs|Hs].
    + assert (Hrun : running_ c = false).
      { destruct Hinv as (_ & Hrn & _). rewrite Hrn, Hs. reflexivity. }
      exists c. split; [|exact Hinv].
      destruct rounds; simpl; [reflexivity | rewrite Hrun; reflexivity].
    + destruct (handlerLoop_total c rounds (api_inv_core_wf c Hinv Hs))
        as (c' & q & r & d & H & E & Hwf' & _).
      exists c'. split; [exact H|].
      destruct Hwf' as (Hq' & Hr' & Hd').
      destruct c as [s m o q0 v u h sl rn er ep ed cn].
      subst c'. unfold api_inv in *. simpl in *.
      destruct Hinv as (_ & Hrn & Hh & Hsl & Hep & _ & _ & Hcn & He & Hu).
      split; [right; split; assumption|].
      repeat match goal with |- _ /\ _ => split end; assumption.
  - (* slow-path rounds *)
    exists c. split; [rewrite slowPathLoop_id; reflexivity | exact Hinv].
Qed.

Lemma api_inv_new : api_inv WatcherCoreImpl_new.
Proof.
  unfold api_inv, is_size_t. simpl.
  split; [left; auto|].
  repeat match goal with |- _ /\ _ => split end;
    try reflexivity; try lia; try discriminate.
  intros [H|[H|[H|H]]]; discriminate.
Qed.

Lemma run_api_inv (ops : list api_op) :
  forall c, api_inv c -> Forall api_op_ok ops ->
    exists c', run_api c ops = Some c' /\ api_inv c'.
Proof.
  induction ops as [|op ops IH]; intros c Hinv Hok.
  - exists c. split; [reflexivity | exact Hinv].
  - apply Forall_cons in Hok as [Hop Hok].
    destruct (api_step_inv c op Hinv Hop) as (c1 & H1 & Hinv1).
    simpl. rewrite H1. exact (IH c1 Hinv1 Hok).
Qed.

(** X6: starting from the constructor, no sequence of interface calls,
    handler rounds and slow-path rounds can fail: the handler never
    meets a missing queue.  Afterwards the queue is missing exactly in
    UNINITIALIZED, and when it exists its depth counter equals the number
    of queued events and lies between 0 and the capacity. *)
Theorem api_run_safe (ops : list api_op) :
  Forall api_op_ok ops ->
  exists c',
    run_api WatcherCoreImpl_new ops = Some c'
    /\ (state_ c' = UNINITIALIZED <-> event_queue_ c' = None)
    /\ forall q, event_queue_ c' = Some q ->
         size q = Z.of_nat (length (nodes q)) /\ 0 <= size q <= capacity_ q.
Proof.
  intros Hok.
  destruct (run_api_inv ops _ api_inv_new Hok) as (c' & H & Hinv).
  exists c'. split; [exact H|].
  destruct Hinv as (Hq & _). split.
  - destruct Hq as [(Hs & Hn & _)|(Hs & q & Hq & _)].
    + split; auto.
    + split; [contradiction | rewrite Hq; discriminate].
  - intros q E. destruct Hq as [(_ & Hn & _)|(_ & q' & Hq & Hs & Hle & _)].
    + rewrite Hn in E. discriminate.
    + rewrite Hq in E. injection E as <-. unfold size. lia.
Qed.

Lemma api_run_safe_witness :
  exists c',
    run_api WatcherCoreImpl_new api_run_example = Some c'
    /\ (state_ c' = UNINITIALIZED <-> event_queue_ c' = None).
Proof.
  destruct (api_run_safe api_run_example) as (c' & H & Hq & _).
  - unfold api_run_example. repeat constructor. unfold is_size_t. lia.
  - exists c'. split; [exact H | exact Hq].
Defined.

(** X7: after any such run the running flag is set, and the two threads
    are joinable, exactly when the state is RUNNING or PAUSED. *)
Theorem api_running_flag (ops : list api_op) :
  Forall api_op_ok ops ->
  exists c',
    run_api WatcherCoreImpl_new ops = Some c'
    /\ (running_ c' = true <-> state_ c' = RUNNING \/ state_ c' = PAUSED)
    /\ handler_thread_ c' = running_ c'
    /\ slow_path_thread_ c' = running_ c'.
Proof.
  intros Hok.
  destruct (run_api_inv ops _ api_inv_new Hok) as (c' & H & Hinv).
  exists c'. split; [exact H|].
  destruct Hinv as (_ & Hrn & Hh & Hsl & _).
  split; [|split; assumption].
  rewrite Hrn. apply bool_decide_eq_true.
Qed.

Lemma api_running_flag_witness :
  exists c',
    run_api WatcherCoreImpl_new api_run_example = Some c'
    /\ handler_thread_ c' = running_ c'.
Proof.
  destruct (api_running_flag api_run_example) as (c' & H & _ & Hh & _).
  - unfold api_run_example. repeat constructor. unfold is_size_t. lia.
  - exists c'. split; [exact H | exact Hh].
Defined.

(** X8: after any such run [getMetrics] reports 0 processed events and 0
    failed callbacks, counters that are 64-bit values, and as queue depth
    the number of queued events reduced modulo [2^32]. *)
Theorem api_metrics (ops : list api_op) :
  Forall api_op_ok ops ->
  exists c',
    run_api WatcherCoreImpl_new ops = Some c'
    /\ events_processed (getMetrics c') = 0
    /\ callbacks_failed (getMetrics c') = 0
    /\ is_size_t (events_received (getMetrics c'))
    /\ is_size_t (events_dropped (getMetrics c'))
    /\ queue_depth (getMetrics c')
       = match event_queue_ c' with
         | Some q => Z.of_nat (length (nodes q)) mod 2 ^ 32
         | None => 0
         end.
Proof.
  intros Hok.
  destruct (run_api_inv ops _ api_inv_new Hok) as (c' & H & Hinv).
  exists c'. split; [exact H|].
  destruct Hinv as (Hq & _ & _ & _ & Hep & Hr & Hd & _).
  simpl. repeat match goal with |- _ /\ _ => split end; try assumption;
    try reflexivity.
  destruct Hq as [(_ & Hn & _)|(_ & q & Hq & Hs & _)].
  - rewrite Hn. reflexivity.
  - rewrite Hq. unfold size. rewrite Hs. apply Z.land_ones. lia.
Qed.

Lemma api_metrics_witness :
  exists c',
    run_api WatcherCoreImpl_new api_run_example = Some c'
    /\ events_processed (getMetrics c') = 0.
Proof.
  destruct (api_metrics api_run_example) as (c' & H & Hp & _).
  - unfold api_run_example. repeat constructor. unfold is_size_t. lia.
  - exists c'. split; [exact H | exact Hp].
Defined.

(** ** The state machine *)

Lemma api_step_state (c c' : WatcherCoreImpl) (op : api_op) :
  api_step c op = Some c' ->
  state_ c' = state_ c \/ transition (state_ c) (state_ c') = true.
Proof.
  destruct op as [dir n env| | | |t|base len name flags depth env|id|id bytes
                 |id meta| |rounds|k]; cbn [api_step].
  - intros [= <-]. unfold initialize.
    destruct (state_ c) eqn:Hs; simpl; auto.
    destruct (userfaultfd_ret env <? 0); simpl; [rewrite ?Hs; auto|].
    destruct (uffdio_api_ret env <? 0); simpl; rewrite ?Hs; auto.
  - intros [= <-]. unfold start.
    destruct (state_ c) eqn:Hs; simpl; rewrite ?Hs; auto.
  - intros [= <-]. unfold pause.
    destruct (state_ c) eqn:Hs; simpl; rewrite ?Hs; auto.
  - intros [= <-]. unfold resume.
    destruct (state_ c) eqn:Hs; simpl; rewrite ?Hs; auto.
  - intros [= <-]. unfold stop.
    destruct (state_ c) eqn:Hs; simpl; rewrite ?Hs; auto.
  - intros [= <-]. unfold registerPage.
    destruct (_ || _); simpl; auto.
    destruct (_ && _); simpl; auto.
    destruct (vector_max_size <? len); simpl; auto.
    destruct (base =? 0); simpl; auto.
  - intros [= <-]. unfold unregisterPage.
    destruct (variables_ c !! id); simpl; auto.
  - intros [= <-]. unfold writeSnapshot.
    destruct (variables_ c !! id); simpl; auto.
  - intros [= <-]. unfold updateMetadata.
    destruct (variables_ c !! id); simpl; auto.
  - intros [= <-]. auto.
  - intros H. destruct (handlerLoop_frame _ _ _ H) as (q & r & d & ->). auto.
  - intros [= <-]. rewrite slowPathLoop_id. auto.
Qed.

(** X9: the state machine of the code.  A step of the interface either
    keeps the state or makes one of eight changes: UNINITIALIZED to
    INITIALIZED or ERROR, INITIALIZED to RUNNING or STOPPED, RUNNING to
    PAUSED or STOPPED, PAUSED to RUNNING or STOPPED.  Each of the eight is
    made by some call on an object reached from the constructor. *)
Theorem api_transitions (s s' : State) :
  (forall c op c',
     state_ c = s -> api_step c op = Some c' -> state_ c' = s' ->
     s' = s \/ transition s s' = true)
  /\ (transition s s' = true ->
      exists ops c op c',
        run_api WatcherCoreImpl_new ops = Some c
        /\ state_ c = s
        /\ api_step c op = Some c'
        /\ state_ c' = s').
Proof.
  split.
  - intros c op c' <- H <-. apply (api_step_state _ _ _ H).
  - destruct s, s'; simpl; try discriminate; intros _.
    + exists [], WatcherCoreImpl_new, (ApiInitialize "/tmp/x" 16 init_ok).
      eexists. repeat split.
    + exists [], WatcherCoreImpl_new, (ApiInitialize "/tmp/x" 16 init_fails).
      eexists. repeat split.
    + exists [ApiInitialize "/tmp/x" 16 init_ok]. eexists. exists ApiStart.
      eexists. repeat split.
    + exists [ApiInitialize "/tmp/x" 16 init_ok]. eexists. exists (ApiStop 5000).
      eexists. repeat split.
    + exists [ApiInitialize "/tmp/x" 16 init_ok; ApiStart]. eexists.
      exists ApiPause. eexists. repeat split.
    + exists [ApiInitialize "/tmp/x" 16 init_ok; ApiStart]. eexists.
      exists (ApiStop 5000). eexists. repeat split.
    + exists [ApiInitialize "/tmp/x" 16 init_ok; ApiStart; ApiPause]. eexists.
      exists ApiResume. eexists. repeat split.
    + exists [ApiInitialize "/tmp/x" 16 init_ok; ApiStart; ApiPause]. eexists.
      exists (ApiStop 5000). eexists. repeat split.
Qed.

Lemma api_transitions_witness :
  exists ops c op c',
    run_api WatcherCoreImpl_new ops = Some c
    /\ state_ c = INITIALIZED
    /\ api_step c op = Some c'
    /\ state_ c' = STOPPED.
Proof.
  apply (api_transitions INITIALIZED STOPPED). reflexivity.
Defined.

Lemma run_api_terminal (ops : list api_op) :
  forall c c',
    state_ c = STOPPED \/ state_ c = ERROR ->
    run_api c ops = Some c' -> state_ c' = state_ c.
Proof.
  induction ops as [|op ops IH]; intros c c' Hs H; simpl in H.
  - injection H as <-. reflexivity.
  - destruct (api_step c op) as [c1|] eqn:H1; [|discriminate].
    assert (E : state_ c1 = state_ c).
    { destruct (api_step_state _ _ _ H1) as [E|E]; [exact E|].
      destruct Hs as [Hs|Hs]; rewrite Hs in E; simpl in E; discriminate. }
    rewrite <- E. apply IH; [rewrite E; exact Hs | exact H].
Qed.

(** X10: STOPPED and ERROR are final.  From an object in one of them no
    run of the interface changes the state, and afterwards [initialize],
    [start], [pause] and [resume] return false and [registerPage] returns
    the empty id, whatever their arguments. *)
Theorem terminal_states (c c' : WatcherCoreImpl) (ops : list api_op) :
  state_ c = STOPPED \/ state_ c = ERROR ->
  run_api c ops = Some c' ->
  state_ c' = state_ c
  /\ (forall dir n env, snd (initialize c' dir n env) = false)
  /\ snd (start c') = false
  /\ snd (pause c') = false
  /\ snd (resume c') = false
  /\ (forall base len name flags depth env,
        snd (registerPage c' base len name flags depth env) = "").
Proof.
  intros Hs H. pose proof (run_api_terminal ops c c' Hs H) as E.
  split; [exact E|].
  unfold initialize, start, pause, resume, registerPage. rewrite E.
  destruct Hs as [-> | ->]; simpl; repeat split; reflexivity.
Qed.

Lemma terminal_states_witness :
  state_ (fst (stop core_running 5000)) = STOPPED
  /\ snd (start (fst (start (fst (stop core_running 5000))))) = false.
Proof.
  destruct (terminal_states (fst (stop core_running 5000))
              (fst (start (fst (stop core_running 5000)))) [ApiStart])
    as (_ & _ & H & _).
  - left. reflexivity.
  - reflexivity.
  - split; [reflexivity | exact H].
Defined.

Lemma enqueue_capacity (q : EventQueue) (e : FastPathEvent.t) :
  capacity_ (fst (enqueue q e)) = capacity_ q.
Proof. unfold enqueue. destruct (size_ q >=? capacity_ q); reflexivity. Qed.

Lemma dequeue_capacity (q : EventQueue) :
  capacity_ (fst (dequeue q)) = capacity_ q.
Proof. unfold dequeue. destruct (nodes q); reflexivity. Qed.

Lemma run_pipeline_capacity (ops : list pipeline_op) :
  forall c c' out q,
    run_pipeline c ops = Some (c', out) -> event_queue_ c = Some q ->
    exists q', event_queue_ c' = Some q' /\ capacity_ q' = capacity_ q.
Proof.
  induction ops as [|[msg env|] ops IH]; intros c c' out q H Hq; simpl in H.
  - injection H as <- <-. eauto.
  - destruct (handlePageFault_step c q msg env Hq) as (c1 & H1 & Hq1 & _).
    rewrite H1 in H.
    destruct (IH _ _ _ _ H Hq1) as (q' & Hq' & Hc).
    exists q'. split; [exact Hq'|]. rewrite Hc. apply enqueue_capacity.
  - unfold consume in H. rewrite Hq in H.
    destruct (dequeue q) as [q1 e] eqn:Hd.
    destruct (run_pipeline _ ops) as [[c2 o2]|] eqn:H2; [|discriminate].
    injection H as <- <-.
    destruct (IH _ _ _ q1 H2 eq_refl) as (q' & Hq' & Hc).
    exists q'. split; [exact Hq'|]. rewrite Hc.
    change q1 with (fst (q1, e)). rewrite <- Hd. apply dequeue_capacity.
Qed.

Lemma api_step_capacity (c c' : WatcherCoreImpl) (op : api_op) (q : EventQueue) :
  state_ c <> UNINITIALIZED -> event_queue_ c = Some q ->
  api_step c op = Some c' ->
  state_ c' <> UNINITIALIZED
  /\ exists q', event_queue_ c' = Some q' /\ capacity_ q' = capacity_ q.
Proof.
  intros Hs Hq H. split.
  { destruct (api_step_state _ _ _ H) as [E|E]; [congruence|].
    intros E'. rewrite E' in E. destruct (state_ c); discriminate. }
  destruct op as [dir n env| | | |t|base len name flags depth env|id|id bytes
                 |id meta| |rounds|k]; cbn [api_step] in H.
  - injection H as <-. unfold initialize.
    destruct (state_ c); simpl; eauto. contradiction.
  - injection H as <-. unfold start. destruct (bool_decide _); simpl; eauto.
  - injection H as <-. unfold pause. destruct (bool_decide _); simpl; eauto.
  - injection H as <-. unfold resume. destruct (bool_decide _); simpl; eauto.
  - injection H as <-. unfold stop. destruct (_ || _); simpl; eauto.
  - injection H as <-. unfold registerPage.
    destruct (_ || _); simpl; eauto.
    destruct (_ && _); simpl; eauto.
    destruct (vector_max_size <? len); simpl; eauto.
    destruct (base =? 0); simpl; eauto.
  - injection H as <-. unfold unregisterPage.
    destruct (variables_ c !! id); simpl; eauto.
  - injection H as <-. unfold writeSnapshot.
    destruct (variables_ c !! id); simpl; eauto.
  - injection H as <-. unfold updateMetadata.
    destruct (variables_ c !! id); simpl; eauto.
  - injection H as <-. simpl. eauto.
  - destruct (running_ c) eqn:Hrun.
    + rewrite (handlerLoop_pipeline rounds c Hrun) in H.
      destruct (run_pipeline c _) as [[c1 o1]|] eqn:H1; [|discriminate].
      injection H as <-. exact (run_pipeline_capacity _ _ _ _ _ H1 Hq).
    + assert (E : handlerLoop c rounds = Some c).
      { destruct rounds; simpl; [reflexivity | rewrite Hrun; reflexivity]. }
      rewrite E in H. injection H as <-. eauto.
  - injection H as <-. rewrite slowPathLoop_id. eauto.
Qed.

Lemma run_api_capacity (ops : list api_op) :
  forall c c' q,
    state_ c <> UNINITIALIZED -> event_queue_ c = Some q ->
    run_api c ops = Some c' ->
    exists q', event_queue_ c' = Some q' /\ capacity_ q' = capacity_ q.
Proof.
  induction ops as [|op ops IH]; intros c c' q Hs Hq H; simpl in H.
  - injection H as <-. eauto.
  - destruct (api_step c op) as [c1|] eqn:H1; [|discriminate].
    destruct (api_step_capacity _ _ _ _ Hs Hq H1) as (Hs1 & q1 & Hq1 & Hc1).
    destruct (IH _ _ _ Hs1 Hq1 H) as (q' & Hq' & Hc').
    exists q'. split; [exact Hq' | congruence].
Qed.

(** X11: the capacity of the queue is fixed by the first [initialize].
    After [initialize(dir, n)] on an UNINITIALIZED object, whether it
    succeeded or not, no run of the interface (later calls of
    [initialize] with another size among them) changes it: the queue
    exists and its capacity is [n]. *)
Theorem capacity_fixed (c c' : WatcherCoreImpl) (dir : string) (n : Z)
  (env : InitEnv) (ops : list api_op) :
  state_ c = UNINITIALIZED ->
  run_api (fst (initialize c dir n env)) ops = Some c' ->
  exists q, event_queue_ c' = Some q /\ capacity_ q = n.
Proof.
  intros Hs H.
  apply (run_api_capacity ops _ _ (EventQueue_new n)) in H.
  - exact H.
  - unfold initialize. rewrite Hs. simpl.
    destruct (userfaultfd_ret env <? 0); simpl; [discriminate|].
    destruct (uffdio_api_ret env <? 0); simpl; discriminate.
  - apply initialize_creates_queue. exact Hs.
Qed.

Lemma capacity_fixed_witness :
  exists q,
    event_queue_
      (fst (initialize core_running "/other" 99 init_ok)) = Some q
    /\ capacity_ q = 16.
Proof.
  apply (capacity_fixed WatcherCoreImpl_new
           (fst (initialize core_running "/other" 99 init_ok))
           "/tmp/x" 16 init_ok
           [ApiRegisterPage page_addr 4096 "v" FLAG_TRACK_THREADS whole_page
              register_ok;
            ApiStart; ApiInitialize "/other" 99 init_ok]).
  - reflexivity.
  - reflexivity.
Defined.

(** ** Lifecycle calls *)

(** X12: [initialize].  On an object that is not UNINITIALIZED (an
    object in ERROR too) it returns false and only overwrites the error
    message with "Core already initialized".  On an UNINITIALIZED object
    it stores the output directory and creates the queue in any case; it
    returns true exactly when both system calls return a non-negative
    value, and then the state is INITIALIZED; otherwise the state is
    ERROR, the descriptor is negative and the error message starts with
    "Failed to c". *)
Theorem initialize_outcome (c : WatcherCoreImpl) (dir : string) (n : Z)
  (env : InitEnv) :
  (state_ c <> UNINITIALIZED ->
   initialize c dir n env
   = (set_error_message_ "Core already initialized" c, false))
  /\ (state_ c = UNINITIALIZED ->
      output_dir_ (fst (initialize c dir n env)) = dir
      /\ event_queue_ (fst (initialize c dir n env)) = Some (EventQueue_new n)
      /\ (snd (initialize c dir n env) = true
          <-> 0 <= userfaultfd_ret env /\ 0 <= uffdio_api_ret env)
      /\ (snd (initialize c dir n env) = true ->
          state_ (fst (initialize c dir n env)) = INITIALIZED
          /\ uffd_ (fst (initialize c dir n env)) = userfaultfd_ret env
          /\ error_message_ (fst (initialize c dir n env)) = error_message_ c)
      /\ (snd (initialize c dir n env) = false ->
          state_ (fst (initialize c dir n env)) = ERROR
          /\ uffd_ (fst (initialize c dir n env)) < 0
          /\ String.prefix "Failed to c"
               (getErrorMessage (fst (initialize c dir n env))) = true)).
Proof.
  split; intros Hs; unfold initialize, getErrorMessage.
  - destruct (state_ c); try reflexivity. contradiction.
  - rewrite Hs. simpl.
    destruct (Z.ltb_spec (userfaultfd_ret env) 0) as [Hu|Hu]; simpl;
      [|destruct (Z.ltb_spec (uffdio_api_ret env) 0) as [Ha|Ha]; simpl];
      repeat match goal with |- _ /\ _ => split end;
      try reflexivity; try discriminate; try lia;
      try (intros [? ?]; lia); try (intros _; repeat split; lia);
      try (intros _; repeat split; reflexivity).
Qed.

Lemma initialize_outcome_witness :
  snd (initialize WatcherCoreImpl_new "/tmp/x" 16 init_fails) = false
  /\ state_ (fst (initialize WatcherCoreImpl_new "/tmp/x" 16 init_fails)) = ERROR
  /\ initialize core_running "/tmp/y" 4 init_ok
     = (set_error_message_ "Core already initialized" core_running, false).
Proof.
  destruct (initialize_outcome WatcherCoreImpl_new "/tmp/x" 16 init_fails)
    as (_ & H).
  destruct (H eq_refl) as (_ & _ & _ & _ & Hf).
  destruct (initialize_outcome core_running "/tmp/y" 4 init_ok) as (H2 & _).
  split; [reflexivity|]. split; [apply Hf; reflexivity|].
  apply H2. discriminate.
Defined.

(** X13: [pause] and [resume] undo each other.  On a RUNNING object
    [pause] succeeds and a following [resume] succeeds and gives back the
    very same object; likewise [resume] then [pause] on a PAUSED object.
    Neither touches the queue, the registry, the counters or the running
    flag. *)
Theorem pause_resume (c : WatcherCoreImpl) :
  (state_ c = RUNNING ->
   pause c = (set_state_ PAUSED c, true)
   /\ resume (fst (pause c)) = (c, true))
  /\ (state_ c = PAUSED ->
      resume c = (set_state_ RUNNING c, true)
      /\ pause (fst (resume c)) = (c, true)).
Proof.
  split; intros Hs; unfold pause, resume; rewrite Hs; simpl;
    (split; [reflexivity|]); destruct c; simpl in *; subst; reflexivity.
Qed.

Lemma pause_resume_witness :
  resume (fst (pause core_running)) = (core_running, true).
Proof.
  apply (pause_resume core_running). reflexivity.
Defined.

(** X14: [stop].  From INITIALIZED, RUNNING or PAUSED it returns true,
    moves to STOPPED, clears the running flag and lets go of both
    threads; the queue with the events still in it, the registry, the
    counters and the descriptor stay as they are.  In every state a
    second [stop] changes nothing and returns what the first returned. *)
Theorem stop_outcome (c : WatcherCoreImpl) (t t' : Z) :
  (state_ c = INITIALIZED \/ state_ c = RUNNING \/ state_ c = PAUSED ->
   stop c t
   = (set_threads false false (set_state_ STOPPED (set_running_ false c)), true))
  /\ event_queue_ (fst (stop c t)) = event_queue_ c
  /\ variables_ (fst (stop c t)) = variables_ c
  /\ getMetrics (fst (stop c t)) = getMetrics c
  /\ uffd_ (fst (stop c t)) = uffd_ c
  /\ stop (fst (stop c t)) t' = (fst (stop c t), snd (stop c t)).
Proof.
  unfold stop, getMetrics.
  destruct (state_ c) eqn:Hs; simpl; rewrite ?Hs; simpl;
    repeat match goal with |- _ /\ _ => split end; try reflexivity;
    intros [H|[H|H]]; discriminate.
Qed.

Lemma stop_outcome_witness :
  state_ (fst (stop core_running 5000)) = STOPPED
  /\ running_ (fst (stop core_running 5000)) = false.
Proof.
  destruct (stop_outcome core_running 5000 0) as (H & _).
  rewrite H by (right; left; reflexivity). split; reflexivity.
Defined.

(** ** Registry calls *)

(** X15: [unregisterPage] of a registered id returns true and removes
    exactly that entry: the id is no longer registered, the registry has
    one entry less, every other entry is as before.  Afterwards
    [readSnapshot] of the id is empty, and [unregisterPage],
    [writeSnapshot] and [updateMetadata] on it return false. *)
Theorem unregisterPage_outcome (c : WatcherCoreImpl) (id : string)
  (meta : VariableMetadata.t) :
  variables_ c !! id = Some meta ->
  snd (unregisterPage c id) = true
  /\ variables_ (fst (unregisterPage c id)) !! id = None
  /\ S (base.size (variables_ (fst (unregisterPage c id))))
     = base.size (variables_ c)
  /\ (forall id', id' <> id ->
      variables_ (fst (unregisterPage c id)) !! id' = variables_ c !! id')
  /\ readSnapshot (fst (unregisterPage c id)) id = []
  /\ snd (unregisterPage (fst (unregisterPage c id)) id) = false
  /\ (forall bytes, snd (writeSnapshot (fst (unregisterPage c id)) id bytes)
                    = false)
  /\ (forall m, snd (updateMetadata (fst (unregisterPage c id)) id m) = false).
Proof.
  intros Hl.
  assert (E : unregisterPage c id
              = (set_variables_ (delete id (variables_ c)) c, true)).
  { unfold unregisterPage. rewrite Hl. reflexivity. }
  rewrite E. simpl.
  assert (Hd : delete id (variables_ c) !! id = None) by apply lookup_delete_eq.
  split; [reflexivity|]. split; [exact Hd|]. split.
  { rewrite map_size_delete, Hl.
    assert (base.size (variables_ c) <> O).
    { intros H0. apply map_size_empty_inv in H0. rewrite H0 in Hl.
      rewrite lookup_empty in Hl. discriminate. }
    simpl. lia. }
  split; [intros id' Hne; apply lookup_delete_ne; congruence|].
  unfold readSnapshot, unregisterPage, writeSnapshot, updateMetadata. simpl.
  rewrite Hd. repeat split; reflexivity.
Qed.

Lemma unregisterPage_outcome_witness :
  snd (unregisterPage core_registered registered_id) = true
  /\ readSnapshot (fst (unregisterPage core_registered registered_id))
       registered_id = [].
Proof.
  destruct (unregisterPage_outcome core_registered registered_id
              (VariableMetadata.mk registered_id page_addr 4096 "v"
                 FLAG_TRACK_THREADS whole_page
                 (memcpy_from zero_memory page_addr 4096) 1700000001))
    as (H1 & _ & _ & _ & H2 & _).
  - vm_compute. reflexivity.
  - split; [exact H1 | exact H2].
Defined.

(** X16: a registration that returns an id stores a copy of the page:
    [readSnapshot] of that id has as many bytes as the length given, and
    its byte at each offset is the byte of host memory at base plus that
    offset, as it was at registration. *)
Theorem registerPage_snapshot (c : WatcherCoreImpl) (base len : Z)
  (name : string) (flags : Z) (depth : MutationDepth) (env : RegisterEnv) :
  snd (registerPage c base len name flags depth env) <> "" ->
  length (readSnapshot (fst (registerPage c base len name flags depth env))
            (snd (registerPage c base len name flags depth env)))
  = Z.to_nat len
  /\ forall i : nat,
       Z.of_nat i < len ->
       readSnapshot (fst (registerPage c base len name flags depth env))
         (snd (registerPage c base len name flags depth env)) !! i
       = Some (memory env (base + Z.of_nat i)).
Proof.
  intros Hne.
  assert (E : readSnapshot (fst (registerPage c base len name flags depth env))
                (snd (registerPage c base len name flags depth env))
              = memcpy_from (memory env) base len).
  { revert Hne. unfold registerPage, readSnapshot.
    destruct (_ || _); simpl; [congruence|].
    destruct (_ && _); simpl; [congruence|].
    destruct (vector_max_size <? len); simpl; [congruence|].
    destruct (base =? 0); simpl; [congruence|].
    intros _. rewrite lookup_insert_eq. reflexivity. }
  rewrite E. unfold memcpy_from. split.
  - rewrite length_fmap. apply length_seqZ.
  - intros i Hi. rewrite list_lookup_fmap, lookup_seqZ_lt by exact Hi.
    reflexivity.
Qed.

Lemma registerPage_snapshot_witness :
  length (readSnapshot core_registered registered_id) = 4096%nat
  /\ readSnapshot core_registered registered_id !! 128%nat = Some Byte.x00.
Proof.
  destruct (registerPage_snapshot core_initialized page_addr 4096 "v"
              FLAG_TRACK_THREADS whole_page register_ok) as (H1 & H2).
  - vm_compute. discriminate.
  - split; [exact H1|]. apply (H2 128%nat). lia.
Defined.

(** ** Variable ids are not reused *)

Lemma append_assoc (a b c : string) : (a +:+ b) +:+ c = a +:+ (b +:+ c).
Proof.
  induction a as [|x a IH]; [reflexivity|].
  change (String x ((a +:+ b) +:+ c) = String x (a +:+ (b +:+ c))).
  rewrite IH. reflexivity.
Qed.

Lemma prefix_append (n post : string) : String.prefix n (n +:+ post) = true.
Proof.
  induction n as [|a n IH]; simpl; [destruct post; reflexivity|].
  destruct (Ascii.ascii_dec a a) as [_|Hne]; [exact IH | contradiction].
Qed.

Lemma str_contains_intro (n pre post : string) :
  str_contains n (pre +:+ n +:+ post) = true.
Proof.
  induction pre as [|a pre IH].
  - change ("" +:+ n +:+ post) with (n +:+ post).
    pose proof (prefix_append n post) as Hp.
    destruct (n +:+ post); cbn [str_contains]; rewrite Hp; reflexivity.
  - change (String a pre +:+ n +:+ post) with (String a (pre +:+ n +:+ post)).
    cbn [str_contains]. rewrite IH. apply orb_true_r.
Qed.

Lemma str_contains_dash_digit (d : N) (s : string) :
  str_contains "-" (String (pretty_N_char d) s) = str_contains "-" s.
Proof.
  cbn [str_contains]. unfold pretty_N_char.
  repeat case_match; reflexivity.
Qed.

Lemma pretty_N_go_no_dash (x : N) :
  forall s, str_contains "-" s = false ->
            str_contains "-" (pretty_N_go x s) = false.
Proof.
  induction (N.lt_wf_0 x) as [x _ IH]. intros s Hs.
  destruct (N.eq_dec x 0%N) as [->|Hx].
  - rewrite pretty_N_go_0. exact Hs.
  - rewrite pretty_N_go_step by lia. apply IH.
    + apply N.div_lt; lia.
    + rewrite str_contains_dash_digit. exact Hs.
Qed.

Lemma pretty_Z_no_dash (z : Z) : 0 <= z -> str_contains "-" (pretty z) = false.
Proof.
  intros Hz. destruct z as [|p|p]; [reflexivity| |lia].
  unfold pretty, pretty_Z, pretty, pretty_positive, pretty, pretty_N.
  destruct (decide (N.pos p = 0%N)); [reflexivity|].
  apply pretty_N_go_no_dash. reflexivity.
Qed.

Lemma after_last_dash_append (pre b : string) :
  str_contains "-" b = false -> after_last_dash (pre +:+ "-" +:+ b) = b.
Proof.
  intros Hb. induction pre as [|a pre IH].
  - cbv [String.append].
    cbn [after_last_dash String.eqb Ascii.eqb Bool.eqb]. rewrite Hb.
    reflexivity.
  - change (String a pre +:+ "-" +:+ b) with (String a (pre +:+ "-" +:+ b)).
    cbn [after_last_dash]. rewrite str_contains_intro. exact IH.
Qed.

Lemma make_variable_id_counter (now cnt : Z) :
  0 <= cnt -> after_last_dash (make_variable_id now cnt) = pretty cnt.
Proof.
  intros Hc. unfold make_variable_id.
  rewrite <- append_assoc. apply after_last_dash_append.
  apply pretty_Z_no_dash. exact Hc.
Qed.

Lemma make_variable_id_inj (now1 now2 cnt1 cnt2 : Z) :
  0 <= cnt1 -> 0 <= cnt2 ->
  make_variable_id now1 cnt1 = make_variable_id now2 cnt2 -> cnt1 = cnt2.
Proof.
  intros H1 H2 E. apply (f_equal after_last_dash) in E.
  rewrite !make_variable_id_counter in E by assumption.
  apply (inj pretty). exact E.
Qed.

Lemma ids_below_fresh (c : WatcherCoreImpl) (now : Z) :
  0 <= counter c -> ids_below c ->
  variables_ c !! make_variable_id now (counter c) = None.
Proof.
  intros H0 Hb.
  destruct (variables_ c !! make_variable_id now (counter c)) as [m|] eqn:E;
    [|reflexivity].
  destruct (Hb _ (ex_intro _ m E)) as (t & k & Eid & Hk).
  apply make_variable_id_inj in Eid; lia.
Qed.

Lemma api_step_ids (c c' : WatcherCoreImpl) (op : api_op) (k : Z) :
  0 <= counter c <= k -> k + 1 < 2 ^ 64 -> ids_below c ->
  api_step c op = Some c' ->
  0 <= counter c' <= k + 1 /\ ids_below c'.
Proof.
  intros Hc Hk Hb H.
  assert (Hsame : forall v : gmap string VariableMetadata.t,
             (forall id, is_Some (v !! id) -> is_Some (variables_ c !! id)) ->
             forall c1, variables_ c1 = v -> counter c1 = counter c ->
                        0 <= counter c1 <= k + 1 /\ ids_below c1).
  { intros v Hv c1 E1 E2. split; [lia|].
    intros id Hid. rewrite E1 in Hid. rewrite E2. exact (Hb id (Hv id Hid)). }
  destruct op as [dir n env| | | |t|base len name flags depth env|id|id bytes
                 |id meta| |rounds|r]; cbn [api_step] in H.
  - injection H as <-. apply (Hsame (variables_ c)); [auto| |];
      unfold initialize; destruct (bool_decide _); simpl; try reflexivity;
      destruct (userfaultfd_ret env <? 0); simpl; try reflexivity;
      destruct (uffdio_api_ret env <? 0); reflexivity.
  - injection H as <-. apply (Hsame (variables_ c)); [auto| |];
      unfold start; destruct (bool_decide _); reflexivity.
  - injection H as <-. apply (Hsame (variables_ c)); [auto| |];
      unfold pause; destruct (bool_decide _); reflexivity.
  - injection H as <-. apply (Hsame (variables_ c)); [auto| |];
      unfold resume; destruct (bool_decide _); reflexivity.
  - injection H as <-. apply (Hsame (variables_ c)); [auto| |];
      unfold stop; destruct (_ || _); reflexivity.
  - injection H as <-.
    assert (Hup : forall c1,
               variables_ c1 = variables_ c ->
               counter c1 = wrap64 (counter c + 1) ->
               0 <= counter c1 <= k + 1 /\ ids_below c1).
    { intros c1 E1 E2. rewrite wrap64_small in E2 by lia. split; [lia|].
      intros id Hid. rewrite E1 in Hid. rewrite E2.
      destruct (Hb id Hid) as (t0 & k0 & ? & ?). exists t0, k0. split; [auto|lia]. }
    unfold registerPage.
    destruct (_ || _); [apply (Hsame (variables_ c)); auto|].
    destruct (_ && _); [apply Hup; reflexivity|].
    destruct (vector_max_size <? len); [apply Hup; reflexivity|].
    destruct (base =? 0); [apply Hup; reflexivity|]. simpl.
    rewrite wrap64_small by lia. split; [lia|].
    intros id Hid. simpl in Hid.
    destruct (decide (id = make_variable_id (now_id env) (counter c))) as [->|Hne].
    + exists (now_id env), (counter c). split; [reflexivity | simpl; lia].
    + rewrite lookup_insert_ne in Hid by congruence.
      destruct (Hb id Hid) as (t0 & k0 & ? & ?). exists t0, k0.
      split; [auto | simpl; lia].
  - injection H as <-. unfold unregisterPage.
    destruct (variables_ c !! id) eqn:E; [|apply (Hsame (variables_ c)); auto].
    apply (Hsame (delete id (variables_ c))); [|reflexivity|reflexivity].
    intros id' Hid'. destruct (decide (id' = id)) as [->|Hne].
    + rewrite lookup_delete_eq in Hid'. destruct Hid'; discriminate.
    + rewrite lookup_delete_ne in Hid' by congruence. exact Hid'.
  - injection H as <-. unfold writeSnapshot.
    destruct (variables_ c !! id) eqn:E; [|apply (Hsame (variables_ c)); auto].
    apply (Hsame (<[id:=set_initial_snapshot bytes t]> (variables_ c)));
      [|reflexivity|reflexivity].
    intros id' Hid'. destruct (decide (id' = id)) as [->|Hne]; [eauto|].
    rewrite lookup_insert_ne in Hid' by congruence. exact Hid'.
  - injection H as <-. unfold updateMetadata.
    destruct (variables_ c !! id) eqn:E; [|apply (Hsame (variables_ c)); auto].
    apply (Hsame (<[id:=meta]> (variables_ c))); [|reflexivity|reflexivity].
    intros id' Hid'. destruct (decide (id' = id)) as [->|Hne]; [eauto|].
    rewrite lookup_insert_ne in Hid' by congruence. exact Hid'.
  - injection H as <-. apply (Hsame (variables_ c)); auto.
  - destruct (handlerLoop_frame _ _ _ H) as (q & r0 & d & ->).
    apply (Hsame (variables_ c)); auto.
  - injection H as <-. rewrite slowPathLoop_id.
    apply (Hsame (variables_ c)); auto.
Qed.

Lemma run_api_ids (ops : list api_op) :
  forall c c' k,
    0 <= counter c <= k -> k + Z.of_nat (length ops) < 2 ^ 64 -> ids_below c ->
    run_api c ops = Some c' ->
    0 <= counter c' <= k + Z.of_nat (length ops) /\ ids_below c'.
Proof.
  induction ops as [|op ops IH]; intros c c' k Hc Hk Hb H; simpl in H.
  - injection H as <-. simpl. split; [lia | exact Hb].
  - destruct (api_step c op) as [c1|] eqn:H1; [|discriminate].
    simpl length in *.
    destruct (api_step_ids c c1 op k Hc ltac:(lia) Hb H1) as (Hc1 & Hb1).
    destruct (IH c1 c' (k + 1) Hc1 ltac:(lia) Hb1 H) as (Hc' & Hb').
    split; [lia | exact Hb'].
Qed.

(** X17: ids are not reused.  After any run of fewer than [2^64] steps
    from the constructor, a registration that returns an id returns one
    that is not in the registry at that moment: it overwrites no entry,
    every entry present before is still there, and the registry grows by
    one. *)
Theorem registerPage_fresh (ops : list api_op) (c : WatcherCoreImpl)
  (base len : Z) (name : string) (flags : Z) (depth : MutationDepth)
  (env : RegisterEnv) :
  Z.of_nat (length ops) < 2 ^ 64 ->
  run_api WatcherCoreImpl_new ops = Some c ->
  snd (registerPage c base len name flags depth env) <> "" ->
  variables_ c !! snd (registerPage c base len name flags depth env) = None
  /\ (forall id m, variables_ c !! id = Some m ->
        variables_ (fst (registerPage c base len name flags depth env)) !! id
        = Some m)
  /\ base.size (variables_ (fst (registerPage c base len name flags depth env)))
     = S (base.size (variables_ c)).
Proof.
  intros Hlen Hrun Hne.
  destruct (run_api_ids ops WatcherCoreImpl_new c 0) as (Hc & Hb);
    [simpl; lia | lia | | exact Hrun |].
  { intros id [m Hm]. simpl in Hm. rewrite lookup_empty in Hm. discriminate. }
  pose proof (ids_below_fresh c (now_id env) ltac:(lia) Hb) as Hfresh.
  revert Hne. unfold registerPage.
  destruct (_ || _); simpl; [congruence|].
  destruct (_ && _); simpl; [congruence|].
  destruct (vector_max_size <? len); simpl; [congruence|].
  destruct (base =? 0); simpl; [congruence|].
  intros _. split; [exact Hfresh|]. split.
  - intros id m Hm. rewrite lookup_insert_ne; [exact Hm|].
    intros <-. rewrite Hfresh in Hm. discriminate.
  - apply map_size_insert_None. exact Hfresh.
Qed.

Lemma registerPage_fresh_witness :
  variables_ core_registered
    !! snd (registerPage core_registered page_addr 4096 "w" FLAG_TRACK_SQL
              whole_page register_ok) = None.
Proof.
  apply (registerPage_fresh
           [ApiInitialize "/tmp/x" 16 init_ok;
            ApiRegisterPage page_addr 4096 "v" FLAG_TRACK_THREADS whole_page
              register_ok]
           core_registered page_addr 4096 "w" FLAG_TRACK_SQL whole_page
           register_ok).
  - simpl. lia.
  - reflexivity.
  - vm_compute. discriminate.
Defined.

(** ** The symbol cache *)

Lemma age_within_ttl (now t0 : Z) :
  (Z.quot (now - t0) SymbolCache.ticks_per_second >? SymbolCache.TTL_SECONDS)
  = true
  <-> 3601 * SymbolCache.ticks_per_second <= now - t0.
Proof.
  unfold SymbolCache.ticks_per_second, SymbolCache.TTL_SECONDS.
  rewrite Z.gtb_ltb, Z.ltb_lt.
  pose proof (Z.quot_rem' (now - t0) 1000000000) as Hqr.
  destruct (Z_lt_le_dec (now - t0) 0) as [Hneg|Hpos].
  - pose proof (Z.rem_bound_pos_neg (now - t0) 1000000000 ltac:(lia) ltac:(lia)).
    lia.
  - pose proof (Z.rem_bound_pos (now - t0) 1000000000 ltac:(lia) ltac:(lia)).
    lia.
Qed.

Lemma wrap_int64_small (z : Z) :
  - 2 ^ 63 <= z < 2 ^ 63 -> wrap_int64 z = z.
Proof. intros H. unfold wrap_int64. rewrite Z.mod_small by lia. lia. Qed.

(** X18: for two clock readings whose difference fits the signed 64-bit
    tick count, an entry put into the cache at time [t0] is returned by
    [get], with the cache unchanged, at every time less than 3601 seconds
    after [t0] (at times before [t0] too).  From 3601 seconds on, [get]
    misses and erases the entry, so that every later [get] of that key
    misses whatever the time. *)
Theorem symbol_cache_ttl (cache_ : gmap Z SymbolCache.Entry) (ip : Z)
  (symbol file : string) (line t0 now : Z) :
  - 2 ^ 63 <= now - t0 < 2 ^ 63 ->
  (now - t0 < 3601 * SymbolCache.ticks_per_second ->
   SymbolCache.get (SymbolCache.set cache_ ip symbol file line t0) ip now
   = (SymbolCache.set cache_ ip symbol file line t0, Some (symbol, file, line)))
  /\ (3601 * SymbolCache.ticks_per_second <= now - t0 ->
      SymbolCache.get (SymbolCache.set cache_ ip symbol file line t0) ip now
      = (delete ip cache_, None)
      /\ forall later,
           SymbolCache.get (delete ip cache_) ip later
           = (delete ip cache_, None)).
Proof.
  intros Hrange.
  unfold SymbolCache.get, SymbolCache.set. rewrite lookup_insert_eq. simpl.
  rewrite (wrap_int64_small _ Hrange).
  pose proof (age_within_ttl now t0) as Ha.
  destruct (Z.quot (now - t0) SymbolCache.ticks_per_second
            >? SymbolCache.TTL_SECONDS) eqn:E.
  - split; [intros H; destruct Ha as [Ha _]; specialize (Ha eq_refl); lia|].
    intros _. rewrite delete_insert_eq. split; [reflexivity|].
    intros later. rewrite lookup_delete_eq. reflexivity.
  - split; [reflexivity|].
    intros H. destruct Ha as [_ Ha]. specialize (Ha H). discriminate.
Qed.

Lemma symbol_cache_ttl_witness :
  SymbolCache.get (SymbolCache.set ∅ 4198400 "main" "main.c" 12 1000) 4198400
    (1000 + 3600 * SymbolCache.ticks_per_second)
  = (SymbolCache.set ∅ 4198400 "main" "main.c" 12 1000,
     Some ("main", "main.c", 12))
  /\ SymbolCache.get (SymbolCache.set ∅ 4198400 "main" "main.c" 12 1000)
       4198400 (1000 + 3601 * SymbolCache.ticks_per_second)
     = (delete 4198400 ∅, None).
Proof.
  split.
  - apply (symbol_cache_ttl ∅ 4198400 "main" "main.c" 12 1000
             (1000 + 3600 * SymbolCache.ticks_per_second));
      unfold SymbolCache.ticks_per_second; lia.
  - apply (symbol_cache_ttl ∅ 4198400 "main" "main.c" 12 1000
             (1000 + 3601 * SymbolCache.ticks_per_second));
      unfold SymbolCache.ticks_per_second; lia.
Defined.

(** X19: the keys of the cache are independent.  A [get] or a [set] on
    one instruction pointer never changes the entry of another one, and
    after [clear] every [get] misses. *)
Theorem symbol_cache_keys (cache_ : gmap Z SymbolCache.Entry) (ip ip' : Z)
  (symbol file : string) (line now now' : Z) :
  ip <> ip' ->
  fst (SymbolCache.get cache_ ip now) !! ip' = cache_ !! ip'
  /\ snd (SymbolCache.get (fst (SymbolCache.get cache_ ip now)) ip' now')
     = snd (SymbolCache.get cache_ ip' now')
  /\ snd (SymbolCache.get (SymbolCache.set cache_ ip symbol file line now)
            ip' now')
     = snd (SymbolCache.get cache_ ip' now')
  /\ SymbolCache.get (SymbolCache.clear cache_) ip now = (∅, None).
Proof.
  intros Hne.
  assert (H1 : fst (SymbolCache.get cache_ ip now) !! ip' = cache_ !! ip').
  { unfold SymbolCache.get. destruct (cache_ !! ip) as [e|]; [|reflexivity].
    destruct (_ >? _); simpl; [|reflexivity].
    apply lookup_delete_ne. exact Hne. }
  split; [exact H1|]. split; [|split].
  - unfold SymbolCache.get at 1 3. rewrite H1.
    destruct (cache_ !! ip') as [e|]; [|reflexivity].
    destruct (_ >? _); reflexivity.
  - unfold SymbolCache.get, SymbolCache.set.
    rewrite lookup_insert_ne by exact Hne.
    destruct (cache_ !! ip') as [e|]; [|reflexivity].
    destruct (_ >? _); reflexivity.
  - unfold SymbolCache.get, SymbolCache.clear. rewrite lookup_empty.
    reflexivity.
Qed.

Lemma symbol_cache_keys_witness :
  snd (SymbolCache.get
         (SymbolCache.set (SymbolCache.set ∅ 1 "f" "f.c" 1 0) 2 "g" "g.c" 2 0)
         1 5)
  = snd (SymbolCache.get (SymbolCache.set ∅ 1 "f" "f.c" 1 0) 1 5).
Proof.
  apply (symbol_cache_keys (SymbolCache.set ∅ 1 "f" "f.c" 1 0) 2 1 "g" "g.c"
           2 0 5).
  lia.
Defined.

(** ** Reading the instruction pointer *)

Lemma str_contains_char (x a : Ascii.ascii) (s : string) :
  str_contains (String x EmptyString) (String a s)
  = String.eqb (String a EmptyString) (String x EmptyString)
    || str_contains (String x EmptyString) s.
Proof.
  cbn [str_contains]. f_equal. simpl.
  destruct (Ascii.ascii_dec x a) as [->|Hne].
  - rewrite Ascii.eqb_refl. destruct s; reflexivity.
  - destruct (Ascii.eqb_spec a x) as [->|_]; [contradiction | reflexivity].
Qed.

Lemma str_contains_char_append (x : Ascii.ascii) (a b : string) :
  str_contains (String x EmptyString) (a +:+ b)
  = str_contains (String x EmptyString) a
    || str_contains (String x EmptyString) b.
Proof.
  induction a as [|y a IH].
  - change ("" +:+ b) with b. destruct b; reflexivity.
  - change (String y a +:+ b) with (String y (a +:+ b)).
    rewrite !str_contains_char, IH. apply orb_assoc.
Qed.

Lemma before_newline_line (line tail : string) :
  str_contains newline line = false ->
  before_newline line = line
  /\ before_newline (line +:+ newline +:+ tail) = line.
Proof.
  induction line as [|a line IH]; intros H.
  - split; reflexivity.
  - unfold newline in H. rewrite str_contains_char in H.
    apply orb_false_iff in H as [Ha Hl].
    destruct (IH Hl) as [IH1 IH2].
    change (String a line +:+ newline +:+ tail)
      with (String a (line +:+ newline +:+ tail)).
    cbn [before_newline]. fold newline in Ha. rewrite Ha, IH1, IH2.
    split; reflexivity.
Qed.

Lemma rfind_space_none (s : string) :
  str_contains " " s = false -> rfind_space s = None.
Proof.
  induction s as [|a s IH]; intros H; [reflexivity|].
  rewrite str_contains_char in H. apply orb_false_iff in H as [Ha Hs].
  cbn [rfind_space]. rewrite (IH Hs), Ha. reflexivity.
Qed.

Lemma rfind_space_last (pre field : string) :
  str_contains " " field = false ->
  rfind_space (pre +:+ " " +:+ field) = Some (String.length pre).
Proof.
  intros Hf. induction pre as [|a pre IH].
  - cbv [String.append]. cbn [rfind_space]. rewrite (rfind_space_none _ Hf).
    reflexivity.
  - change (String a pre +:+ " " +:+ field)
      with (String a (pre +:+ " " +:+ field)).
    cbn [rfind_space]. rewrite IH. reflexivity.
Qed.

Lemma substring_all (s : string) : String.substring 0 (String.length s) s = s.
Proof. induction s as [|a s IH]; simpl; [reflexivity | rewrite IH; reflexivity]. Qed.

Lemma substr_last (pre field : string) :
  substr (pre +:+ " " +:+ field) (String.length pre + 1) = field.
Proof.
  unfold substr. induction pre as [|a pre IH].
  - cbv [String.append]. simpl. rewrite Nat.sub_0_r. apply substring_all.
  - change (String a pre +:+ " " +:+ field)
      with (String a (pre +:+ " " +:+ field)).
    simpl. exact IH.
Qed.

(** X20: [extractInstructionPointer] looks at the first line only and at
    its last field only.  When the first line is some text, a space and a
    field without spaces, the result is what [stoull] makes of that field
    (0 when [stoull] throws), whatever follows the first line. *)
Theorem extractInstructionPointer_last_field (stoull16 : string -> option Z)
  (pre field tail : string) :
  str_contains newline pre = false ->
  str_contains newline field = false ->
  str_contains " " field = false ->
  extractInstructionPointer stoull16 (Some (pre +:+ " " +:+ field))
  = default 0 (stoull16 field)
  /\ extractInstructionPointer stoull16
       (Some ((pre +:+ " " +:+ field) +:+ newline +:+ tail))
     = default 0 (stoull16 field).
Proof.
  intros Hp Hf Hs.
  assert (Hline : str_contains newline (pre +:+ " " +:+ field) = false).
  { unfold newline in *. rewrite !str_contains_char_append, Hp, Hf.
    reflexivity. }
  destruct (before_newline_line _ tail Hline) as [H1 H2].
  assert (Hres : match rfind_space (pre +:+ " " +:+ field) with
                 | Some last_space =>
                     match stoull16 (substr (pre +:+ " " +:+ field)
                                       (last_space + 1)) with
                     | Some v => v
                     | None => 0
                     end
                 | None => 0
                 end = default 0 (stoull16 field)).
  { rewrite (rfind_space_last pre field Hs), substr_last.
    destruct (stoull16 field); reflexivity. }
  assert (Hget : forall s, s <> "" -> getline s = Some (before_newline s)).
  { intros [|a s] Hne; [contradiction | reflexivity]. }
  unfold extractInstructionPointer. split.
  - rewrite Hget by (destruct pre; discriminate). rewrite H1. exact Hres.
  - rewrite Hget by (destruct pre; discriminate). rewrite H2. exact Hres.
Qed.

Lemma extractInstructionPointer_last_field_witness :
  extractInstructionPointer (fun s => if String.eqb s "0x401000" then Some 4198400 else None)
    (Some ("0 0x1 0x2 0x7ffc00" +:+ " " +:+ "0x401000"))
  = 4198400.
Proof.
  apply (extractInstructionPointer_last_field
           (fun s => if String.eqb s "0x401000" then Some 4198400 else None)
           "0 0x1 0x2 0x7ffc00" "0x401000" "");
    reflexivity.
Defined.

(** X21: [extractInstructionPointer] returns 0 when the file cannot be
    opened, when it is empty, and when its first line holds no space (the
    text "running" for instance); [stoull] is not consulted then. *)
Theorem extractInstructionPointer_zero (stoull16 : string -> option Z)
  (content : string) :
  extractInstructionPointer stoull16 None = 0
  /\ extractInstructionPointer stoull16 (Some "") = 0
  /\ (str_contains " " (before_newline content) = false ->
      extractInstructionPointer stoull16 (Some content) = 0).
Proof.
  split; [reflexivity|]. split; [reflexivity|].
  intros H. unfold extractInstructionPointer, getline.
  destruct content as [|a content]; [reflexivity|].
  rewrite (rfind_space_none _ H). reflexivity.
Qed.

Lemma extractInstructionPointer_zero_witness :
  extractInstructionPointer (fun _ => Some 7) (Some ("running" +:+ newline)) = 0.
Proof.
  apply (extractInstructionPointer_zero (fun _ => Some 7)
           ("running" +:+ newline)).
  reflexivity.
Defined.

(** ** The C interface for Python *)

(** X22: [watcher_initialize] returns "OK" exactly when [initialize] of
    the core succeeded; otherwise it returns the core's error message,
    which is never "OK".  It always asks for the default capacity: called
    on an UNINITIALIZED core it leaves a queue of capacity 10000. *)
Theorem watcher_initialize_outcome (c : WatcherCoreImpl) (dir : string)
  (env : InitEnv) :
  fst (watcher_initialize c dir env)
  = fst (initialize c dir EVENT_QUEUE_CAPACITY env)
  /\ (snd (watcher_initialize c dir env) = "OK"
      <-> snd (initialize c dir EVENT_QUEUE_CAPACITY env) = true)
  /\ (snd (watcher_initialize c dir env) <> "OK" ->
      snd (watcher_initialize c dir env)
      = getErrorMessage (fst (watcher_initialize c dir env)))
  /\ (state_ c = UNINITIALIZED ->
      event_queue_ (fst (watcher_initialize c dir env))
      = Some (EventQueue_new 10000)).
Proof.
  assert (E1 : fst (watcher_initialize c dir env)
               = fst (initialize c dir EVENT_QUEUE_CAPACITY env)).
  { unfold watcher_initialize.
    destruct (initialize c dir EVENT_QUEUE_CAPACITY env) as [c' [|]];
      reflexivity. }
  split; [exact E1|]. split; [|split].
  - unfold watcher_initialize, initialize, getErrorMessage.
    destruct (bool_decide _); simpl; [split; discriminate|].
    destruct (userfaultfd_ret env <? 0); simpl; [split; discriminate|].
    destruct (uffdio_api_ret env <? 0); simpl; split;
      (discriminate || reflexivity).
  - unfold watcher_initialize.
    destruct (initialize c dir EVENT_QUEUE_CAPACITY env) as [c' [|]]; simpl;
      [intros H; contradiction | reflexivity].
  - intros Hs. rewrite E1. apply initialize_creates_queue. exact Hs.
Qed.

Lemma watcher_initialize_outcome_witness :
  event_queue_ (fst (watcher_initialize WatcherCoreImpl_new "/tmp/x" init_fails))
  = Some (EventQueue_new 10000)
  /\ snd (watcher_initialize WatcherCoreImpl_new "/tmp/x" init_fails) <> "OK".
Proof.
  destruct (watcher_initialize_outcome WatcherCoreImpl_new "/tmp/x" init_fails)
    as (_ & H2 & _ & H4).
  split; [apply H4; reflexivity|].
  intros E. apply H2 in E. discriminate.
Defined.



(** X24: through the C interface a snapshot written is the snapshot read.
    [watcher_write_snapshot] succeeds exactly when the id is registered,
    whatever the length; after it has succeeded with [len] bytes at
    [data], [watcher_read_snapshot] yields those bytes of memory and
    reports [len] (0 for a negative [len]) as their number. *)
Theorem watcher_snapshot_round_trip (c : WatcherCoreImpl) (id : string)
  (mem : Z -> Byte.byte) (data len : Z) :
  (snd (watcher_write_snapshot c id mem data len) = true
   <-> is_Some (variables_ c !! id))
  /\ (snd (watcher_write_snapshot c id mem data len) = true ->
      watcher_read_snapshot (fst (watcher_write_snapshot c id mem data len)) id
      = (memcpy_from mem data len, Z.max 0 len)
      /\ forall i : nat,
           Z.of_nat i < len ->
           fst (watcher_read_snapshot
                  (fst (watcher_write_snapshot c id mem data len)) id) !! i
           = Some (mem (data + Z.of_nat i))).
Proof.
  unfold watcher_write_snapshot, watcher_read_snapshot.
  split; [apply writeSnapshot_success|].
  intros H.
  assert (E : readSnapshot (fst (writeSnapshot c id (memcpy_from mem data len)))
                id = memcpy_from mem data len).
  { unfold writeSnapshot, readSnapshot in *.
    destruct (variables_ c !! id) as [meta|]; [|discriminate].
    simpl. rewrite lookup_insert_eq. reflexivity. }
  rewrite E. simpl. split.
  - f_equal. unfold memcpy_from. rewrite length_fmap, length_seqZ. lia.
  - intros i Hi. unfold memcpy_from.
    rewrite list_lookup_fmap, lookup_seqZ_lt by exact Hi. reflexivity.
Qed.

Lemma watcher_snapshot_round_trip_witness :
  watcher_read_snapshot
    (fst (watcher_write_snapshot core_registered registered_id zero_memory
            page_addr 3)) registered_id
  = (memcpy_from zero_memory page_addr 3, Z.max 0 3).
Proof.
  apply (watcher_snapshot_round_trip core_registered registered_id zero_memory
           page_addr 3).
  vm_compute. reflexivity.
Defined.

(** ** The bindings for JavaScript *)

(** X25: the JavaScript bindings throw "Watcher core not initialized"
    from [Start], [Stop] and [GetState], without touching the core, as
    long as the core pointer is unset.  [Initialize] sets the pointer as
    soon as its two N-API calls have succeeded, before it knows whether
    the core could be initialized: after an [Initialize] that threw
    "Failed to initialize watcher core" on an UNINITIALIZED core,
    [Start] does not throw but returns false, and [GetState] returns 5
    (ERROR). *)
Theorem js_core_pointer (m : JsModule) (dir : string) (env : InitEnv) :
  (g_core m = false ->
   Start m = (m, Throw "Watcher core not initialized")
   /\ Stop m = (m, Throw "Watcher core not initialized")
   /\ GetState m = (m, Throw "Watcher core not initialized"))
  /\ (forall cb_info_ok string_ok,
        g_core (fst (Initialize m cb_info_ok string_ok dir env))
        = g_core m || (cb_info_ok && string_ok))
  /\ (state_ (js_core m) = UNINITIALIZED ->
      snd (initialize (js_core m) dir EVENT_QUEUE_CAPACITY env) = false ->
      snd (Initialize m true true dir env)
      = Throw "Failed to initialize watcher core"
      /\ snd (Start (fst (Initialize m true true dir env)))
         = ReturnBoolean false
      /\ snd (GetState (fst (Initialize m true true dir env)))
         = ReturnUint32 5).
Proof.
  split; [|split].
  - intros Hg. unfold Start, Stop, GetState. rewrite Hg. auto.
  - intros [|] [|]; unfold Initialize; simpl;
      try (rewrite orb_false_r; reflexivity).
    destruct (initialize _ _ _ _) as [c' [|]]; simpl;
      rewrite orb_true_r; reflexivity.
  - intros Hs. unfold Initialize, Start, GetState, initialize. rewrite Hs.
    simpl.
    destruct (userfaultfd_ret env <? 0); simpl; [auto|].
    destruct (uffdio_api_ret env <? 0); simpl; [auto | discriminate].
Qed.

Lemma js_core_pointer_witness :
  Start JsModule_new = (JsModule_new, Throw "Watcher core not initialized")
  /\ snd (Start (fst (Initialize JsModule_new true true "/tmp/x" init_fails)))
     = ReturnBoolean false.
Proof.
  destruct (js_core_pointer JsModule_new "/tmp/x" init_fails) as (H1 & _ & H3).
  split.
  - apply H1. reflexivity.
  - apply H3; reflexivity.
Defined.

(** ** Conservation of events *)

(** X26: no event is lost inside the queue.  On a core whose queue is
    fresh and whose counters are zero, after any run of fewer than
    [2^63] fault records and any take-outs, [events_received] equals the
    number of events still queued plus the number taken out, and the
    depth reported by the queue is the number still queued. *)
Theorem pipeline_conservation (c : WatcherCoreImpl) (capacity : Z)
  (ops : list pipeline_op) :
  is_size_t capacity ->
  event_queue_ c = Some (EventQueue_new capacity) ->
  events_received_ c = 0 ->
  events_dropped_ c = 0 ->
  2 * records ops < 2 ^ 64 ->
  exists c' out q',
    run_pipeline c ops = Some (c', out)
    /\ event_queue_ c' = Some q'
    /\ size q' = Z.of_nat (length (nodes q'))
    /\ events_received_ c' = size q' + Z.of_nat (length out)
    /\ size q' <= capacity.
Proof.
  intros Hcap Hq Hr Hd Hbound.
  assert (Hwf : core_wf c).
  { split; [exists (EventQueue_new capacity); split;
             [exact Hq | apply queue_wf_new; exact Hcap]|].
    rewrite Hr, Hd. unfold is_size_t. lia. }
  destruct (run_pipeline_accounting ops c Hwf)
    as (c' & out & enq & drops & Hrun & Hwf' & Henq & Hdrops & Hsum
        & Hr' & Hd' & Hlen).
  destruct (run_pipeline_capacity _ _ _ _ _ Hrun Hq) as (q' & Hq' & Hc').
  destruct Hwf' as ((q'' & Hq'' & Hs & Hle & _) & _).
  rewrite Hq' in Hq''. injection Hq'' as <-.
  specialize (Hlen _ _ Hq Hq'). simpl in Hlen, Hc'.
  rewrite Hr in Hr'. simpl in Hr'. rewrite wrap64_small in Hr' by lia.
  exists c', out, q'. unfold size.
  split; [exact Hrun|]. split; [exact Hq'|]. split; [exact Hs|].
  split; lia.
Qed.

Lemma pipeline_conservation_witness :
  exists c' out q',
    run_pipeline core_running run_three = Some (c', out)
    /\ event_queue_ c' = Some q'
    /\ events_received_ c' = size q' + Z.of_nat (length out).
Proof.
  destruct (pipeline_conservation core_running 16 run_three)
    as (c' & out & q' & H1 & H2 & _ & H3 & _).
  - unfold is_size_t. lia.
  - reflexivity.
  - reflexivity.
  - reflexivity.
  - vm_compute. reflexivity.
  - exists c', out, q'. split; [exact H1|]. split; [exact H2 | exact H3].
Defined.
